(** * Zephyr: ESP32-C3 power-state hooks and the SD-card filesystem sample

    Shallow embedding of
    - [soc/riscv/esp32c3/power.c]: [pm_state_set], [pm_state_exit_post_ops];
    - the filesystem sample: [lsdir], [create_some_entries], [main].

    The hooks of [power.c] only call into the platform, so they are embedded
    as computations over a record of what the platform has been asked to do
    (the calls, oldest first) and of the one register the calls are specified
    to change here ([mstatus]).  A call that hands the CPU to the sleep
    hardware ends the computation: what is sequenced after it does not run. *)

From Stdlib Require Import ZArith List Ascii String Bool Lia.
Import ListNotations.
#[local] Open Scope string_scope.
#[local] Open Scope list_scope.
#[local] Open Scope Z_scope.

(* ================================================================== *)
(** * Definitions *)
(* ================================================================== *)

Module Power.

(** Severity of a log macro ([LOG_ERR], [LOG_WRN], [LOG_INF], [LOG_DBG]). *)
Inductive log_level : Set :=
| LOG_LEVEL_ERR
| LOG_LEVEL_WRN
| LOG_LEVEL_INF
| LOG_LEVEL_DBG.

(** What [power.c] asks of the platform beneath it. *)
Inductive hw_call : Set :=
| EspSleepPdConfig (domain option : Z)
| EspDeepSleepStart
| IrqUnlock (key : Z)
| Wfi
| EspLightSleepStart
| Log (level : log_level) (fmt : string) (arg : Z).

(** A log line touches no hardware; every other call does. *)
Definition is_hw_action (c : hw_call) : bool :=
  match c with
  | Log _ _ _ => false
  | _ => true
  end.

Definition is_log_at (l : log_level) (c : hw_call) : bool :=
  match c, l with
  | Log LOG_LEVEL_ERR _ _, LOG_LEVEL_ERR
  | Log LOG_LEVEL_WRN _ _, LOG_LEVEL_WRN
  | Log LOG_LEVEL_INF _ _, LOG_LEVEL_INF
  | Log LOG_LEVEL_DBG _ _, LOG_LEVEL_DBG => true
  | _, _ => false
  end.

(** The SoC as the hooks see it. *)
Record soc : Set := mk_soc {
  mstatus : Z;            (* machine status CSR of the RISC-V core *)
  calls : list hw_call    (* platform calls made so far, oldest first *)
}.

(** How a C call comes back: it returns a value, or it never returns because
    the CPU has entered deep sleep. *)
Inductive outcome (A : Type) : Type :=
| Returned (a : A)
| NoReturn.
Arguments Returned {A} a.
Arguments NoReturn {A}.

Definition M (A : Type) : Type := soc -> outcome A * soc.

Definition ret {A} (a : A) : M A := fun s => (Returned a, s).

Definition bind {A B} (m : M A) (k : A -> M B) : M B :=
  fun s =>
    match m s with
    | (Returned a, s') => k a s'
    | (NoReturn, s') => (NoReturn, s')
    end.

Notation "c1 ;; c2" := (bind c1 (fun _ => c2))
  (at level 61, right associativity).

Definition record (c : hw_call) (s : soc) : soc :=
  {| mstatus := mstatus s; calls := calls s ++ [c] |}.

(** A SoC with interrupts masked and no call made yet. *)
Definition soc0 : soc := {| mstatus := 0; calls := [] |}.

(** Constants that [power.c] takes from headers it includes
    ([zephyr/pm/pm.h], [esp_sleep.h], the RISC-V CSR definitions); the hooks
    are stated for any values of them.  [enum pm_state] and [uint8_t] values
    are integers. *)
Class soc_headers : Set := {
  PM_STATE_SOFT_OFF : Z;
  PM_STATE_STANDBY : Z;
  ESP_PD_DOMAIN_RTC_PERIPH : Z;
  ESP_PD_OPTION_ON : Z;
  MSTATUS_IEN : Z
}.

(** Values of the constants as in the Zephyr tree for this SoC, for running
    the hooks on concrete inputs; no theorem depends on them. *)
Definition esp32c3_headers : soc_headers :=
  {| PM_STATE_SOFT_OFF := 6;
     PM_STATE_STANDBY := 3;
     ESP_PD_DOMAIN_RTC_PERIPH := 0;
     ESP_PD_OPTION_ON := 1;
     MSTATUS_IEN := 8 |}.

Section Handler.
Context {hdr : soc_headers}.

(** ** Platform services *)

Definition esp_sleep_pd_config (domain option : Z) : M unit :=
  fun s => (Returned tt, record (EspSleepPdConfig domain option) s).

(** Modelled from the spec: [esp_deep_sleep_start] is declared in
    [esp_sleep.h] and defined in the vendor HAL.  "This call does not return to its caller along the
    normal path; execution resumes only after a wake event re-enters the
    system at reset/boot-like entry". *)
Definition esp_deep_sleep_start : M unit :=
  fun s => (NoReturn, record EspDeepSleepStart s).

(** Interrupts are enabled when the [MSTATUS_IEN] bits of [mstatus] are set. *)
Definition interrupts_enabled (m : Z) : bool :=
  Z.land m MSTATUS_IEN =? MSTATUS_IEN.

(** Modelled from the spec: [irq_lock] and [irq_unlock] are declared in
    [zephyr/irq.h] and defined by the architecture layer.  The unlock primitive
    "unlock[s]/re-enable[s] interrupts at the core level", a "core
    interrupt-mask register modification": it sets in [mstatus] the
    interrupt-enable bits that the key carries.  The matching lock hands the
    previous [mstatus] out as the key and clears the bits. *)
Definition arch_irq_unlock (key m : Z) : Z :=
  Z.lor m (Z.land key MSTATUS_IEN).

Definition arch_irq_lock (m : Z) : Z * Z :=
  (m, Z.ldiff m MSTATUS_IEN).

Definition irq_unlock (key : Z) : M unit :=
  fun s =>
    (Returned tt,
     {| mstatus := arch_irq_unlock key (mstatus s);
        calls := calls s ++ [IrqUnlock key] |}).

(** [__asm__ volatile("wfi")]: the core halts until an interrupt is pending;
    the instruction itself leaves [mstatus] alone. *)
Definition wfi : M unit :=
  fun s => (Returned tt, record Wfi s).

Definition esp_light_sleep_start : M unit :=
  fun s => (Returned tt, record EspLightSleepStart s).

Definition LOG_DBG (fmt : string) (arg : Z) : M unit :=
  fun s => (Returned tt, record (Log LOG_LEVEL_DBG fmt arg) s).

(** ** The hooks *)

(** [pm_state_set]: the [switch] compares [state] with the case labels in
    turn; [substate_id] is [ARG_UNUSED]. *)
Definition pm_state_set (state : Z) (substate_id : Z) : M unit :=
  if state =? PM_STATE_SOFT_OFF then
    (* Forces RTC domain to be always on *)
    esp_sleep_pd_config ESP_PD_DOMAIN_RTC_PERIPH ESP_PD_OPTION_ON ;;
    esp_deep_sleep_start ;;
    ret tt
  else if state =? PM_STATE_STANDBY then
    (* Nothing to do. *)
    ret tt
  else
    LOG_DBG "Unsupported power state %u" state ;;
    ret tt.

(** [pm_state_exit_post_ops] *)
Definition pm_state_exit_post_ops (state : Z) (substate_id : Z) : M unit :=
  if state =? PM_STATE_SOFT_OFF then
    (* Nothing to do. *)
    ret tt
  else if state =? PM_STATE_STANDBY then
    irq_unlock MSTATUS_IEN ;;
    wfi ;;
    esp_light_sleep_start ;;
    ret tt
  else
    LOG_DBG "Unsupported power state %u" state ;;
    ret tt.

End Handler.

(** Modelled from the spec: what follows a hook is the framework's and the
    hardware's business, not that of [power.c].  After a normal return the
    caller goes on; from deep sleep "execution resumes only after a wake event
    re-enters the system at reset/boot-like entry", and without a wake event
    it does not resume. *)
Inductive entry_point : Set :=
| BackInCaller
| ResetEntry.

Inductive wake_event : Set :=
| ExternalWake.

Definition resumes_at {A} (o : outcome A) (w : option wake_event)
  : option entry_point :=
  match o, w with
  | Returned _, _ => Some BackInCaller
  | NoReturn, Some ExternalWake => Some ResetEntry
  | NoReturn, None => None
  end.

End Power.

Module FsSample.

(** ** C integers *)

Definition INT_MAX : Z := 2 ^ 31 - 1.
Definition INT_MIN : Z := - 2 ^ 31.

(** An [int] result brought back into range (two's complement). *)
Definition wrap_int (z : Z) : Z := (z + 2 ^ 31) mod 2 ^ 32 - 2 ^ 31.

(** ** The filesystem API as [lsdir] uses it *)

Inductive fs_dir_entry_type : Set :=
| FS_DIR_ENTRY_FILE
| FS_DIR_ENTRY_DIR.

Record fs_dirent : Set := mk_dirent {
  type : fs_dir_entry_type;
  name : string;
  size : Z
}.

(** One [fs_readdir] call: its return code and the entry it leaves. *)
Definition readdir_reply : Set := Z * fs_dirent.

(** The mounted filesystem, seen from the sample: for each path, what
    [fs_opendir] returns and what the successive [fs_readdir] calls on the
    opened directory give. *)
Record filesystem : Set := mk_fs {
  opendir_reply : string -> Z;
  readdir_replies : string -> list readdir_reply
}.

(** The entry of the end-of-dir condition: [entry.name[0] == 0].  A directory
    that has given all its replies keeps reporting end-of-dir. *)
Definition end_of_dir : fs_dirent :=
  {| type := FS_DIR_ENTRY_FILE; name := EmptyString; size := 0 |}.

Inductive printk_arg : Set :=
| Str (s : string)
| Int (n : Z).

(** What [lsdir] does to the world, in order.  Format strings are kept as
    they are written in the C source, escapes included. *)
Inductive event : Set :=
| FsOpendir (path : string) (res : Z)
| FsReaddir (res : Z) (entry : fs_dirent)
| FsClosedir
| Printk (fmt : string) (args : list printk_arg).

Definition name_is_empty (e : fs_dirent) : bool :=
  match name e with
  | EmptyString => true
  | String _ _ => false
  end.

Definition print_entry (entry : fs_dirent) : event :=
  match type entry with
  | FS_DIR_ENTRY_DIR => Printk "[DIR ] %s\n" [Str (name entry)]
  | FS_DIR_ENTRY_FILE =>
      Printk "[FILE] %s (size = %zu)\n" [Str (name entry); Int (size entry)]
  end.

(** The [for (;;)] loop of [lsdir].  [dirp] is what the open directory still
    has to give, [count] the local counter, [out] the events so far.  It hands
    back the last [res], the counter and the events. *)
Fixpoint lsdir_loop (dirp : list readdir_reply) (count : Z) (out : list event)
  : Z * Z * list event :=
  match dirp with
  | [] =>
      (* res = 0 and entry.name[0] == 0: break *)
      (0, count, out ++ [FsReaddir 0 end_of_dir])
  | (res, entry) :: dirp' =>
      let out := out ++ [FsReaddir res entry] in
      if negb (res =? 0) || name_is_empty entry then
        (res, count, out)
      else
        lsdir_loop dirp' (wrap_int (count + 1)) (out ++ [print_entry entry])
  end.

(** [lsdir]: the return value and the events of the call.
    ([fs_dir_t_init] only clears the local handle.) *)
Definition lsdir (fs : filesystem) (path : string) : Z * list event :=
  let count := 0 in
  let res := opendir_reply fs path in
  let out := [FsOpendir path res] in
  if negb (res =? 0) then
    (res, out ++ [Printk "Error opening dir %s [%d]\n" [Str path; Int res]])
  else
    let out := out ++ [Printk "\nListing dir %s ...\n" [Str path]] in
    let '(res, count, out) := lsdir_loop (readdir_replies fs path) count out in
    let out := out ++ [Printk "Total: %d entries\n" [Int count]] in
    let out := out ++ [FsClosedir] in
    let res := if res =? 0 then count else res in
    let out := out ++ [Printk "Closed dir %s\n" [Str path]] in
    (res, out).

(** ** Reading a trace *)

(** Return codes of the [fs_readdir] calls, in call order. *)
Fixpoint readdir_codes (evs : list event) : list Z :=
  match evs with
  | [] => []
  | FsReaddir res _ :: evs' => res :: readdir_codes evs'
  | _ :: evs' => readdir_codes evs'
  end.

Definition is_listing (e : event) : bool :=
  match e with
  | Printk fmt _ =>
      (fmt =? "[DIR ] %s\n")%string || (fmt =? "[FILE] %s (size = %zu)\n")%string
  | _ => false
  end.

(** Number of directory entries printed. *)
Definition listed (evs : list event) : nat :=
  List.length (filter is_listing evs).

(** Whether a directory handle is open once the events have happened,
    starting from [open]. *)
Fixpoint handle_open (open : bool) (evs : list event) : bool :=
  match evs with
  | [] => open
  | FsOpendir _ res :: evs' => handle_open (open || (res =? 0)) evs'
  | FsClosedir :: evs' => handle_open false evs'
  | _ :: evs' => handle_open open evs'
  end.

(** The API contract of the calls: 0 on success, a negative errno code on
    failure. *)
Definition fs_contract (fs : filesystem) (path : string) : Prop :=
  opendir_reply fs path <= 0 /\
  Forall (fun r : readdir_reply => fst r <= 0) (readdir_replies fs path).

(** A small card: two files and a directory, then end-of-dir. *)
Definition sd_card : filesystem :=
  {| opendir_reply := fun p => if (p =? "/SD:")%string then 0 else -2;
     readdir_replies := fun _ =>
       [ (0, mk_dirent FS_DIR_ENTRY_FILE "some.dat" 0);
         (0, mk_dirent FS_DIR_ENTRY_DIR "some" 0);
         (0, mk_dirent FS_DIR_ENTRY_FILE "log.txt" 12);
         (0, end_of_dir) ] |}.

(** The same card when the second read fails with [-EIO]. *)
Definition sd_card_io_error : filesystem :=
  {| opendir_reply := fun _ => 0;
     readdir_replies := fun _ =>
       [ (0, mk_dirent FS_DIR_ENTRY_FILE "some.dat" 0);
         (-5, end_of_dir);
         (0, mk_dirent FS_DIR_ENTRY_FILE "log.txt" 12) ] |}.

End FsSample.

Module FsMain.
Import FsSample.

(** ** C strings and [char] arrays *)

Definition NUL : ascii := Ascii.zero.

(** A [string] given as a [const char *] stands for its characters followed
    by the terminating NUL; the C string is what comes before the first
    NUL. *)
Fixpoint c_str (s : string) : string :=
  match s with
  | EmptyString => EmptyString
  | String c s' =>
      if Ascii.eqb c NUL then EmptyString else String c (c_str s')
  end.

Definition strlen (s : string) : Z := Z.of_nat (String.length (c_str s)).

(** [sizeof] of a string literal counts the terminating NUL. *)
Definition sizeof_str (s : string) : Z := Z.of_nat (String.length s) + 1.

(** An [int] converted to [size_t] for a comparison with a [sizeof]. *)
Definition to_size_t (z : Z) : Z := z mod 2 ^ 32.

Definition buffer : Set := list ascii.

(** A local array without initialiser: [n] bytes of whatever was there. *)
Definition uninitialised (junk : nat -> ascii) (n : nat) : buffer :=
  map junk (seq 0 n).

Definition obind {A B} (o : option A) (k : A -> option B) : option B :=
  match o with
  | Some a => k a
  | None => None
  end.

Notation "x <- e ;; k" := (obind e (fun x => k))
  (at level 61, e at next level, right associativity).

(** Writing [bytes] from index [i] on; [None] when a byte falls outside the
    array. *)
Definition write_at (dst : buffer) (i : Z) (bytes : list ascii)
  : option buffer :=
  if (0 <=? i) && (i + Z.of_nat (List.length bytes) <=? Z.of_nat (List.length dst))
  then
    let n := Z.to_nat i in
    Some (firstn n dst ++ bytes ++ skipn (n + List.length bytes) dst)
  else None.

(** [dst[i] = c] *)
Definition store (dst : buffer) (i : Z) (c : ascii) : option buffer :=
  write_at dst i [c].

(** Distance to the first NUL; [None] when the scan leaves the array. *)
Fixpoint find_nul (m : list ascii) : option nat :=
  match m with
  | [] => None
  | c :: m' =>
      if Ascii.eqb c NUL then Some 0%nat else option_map S (find_nul m')
  end.

(** [strncpy(dst, src, n)] writes exactly [n] bytes: the C string of [src],
    cut at [n] or padded with NULs up to [n]. *)
Definition strncpy (dst : buffer) (src : string) (n : nat) : option buffer :=
  write_at dst 0 (firstn n (list_ascii_of_string (c_str src) ++ repeat NUL n)).

(** [strcat(&dst[off], src)] looks for the NUL from [off] on and writes the
    C string of [src] and its NUL there. *)
Definition strcat (dst : buffer) (off : Z) (src : string) : option buffer :=
  if 0 <=? off then
    k <- find_nul (skipn (Z.to_nat off) dst) ;;
    write_at dst (off + Z.of_nat k) (list_ascii_of_string (c_str src) ++ [NUL])
  else None.

(** The array read as a C string, as a callee given [path] does. *)
Definition load_str (m : buffer) : option string :=
  k <- find_nul m ;;
  Some (string_of_list_ascii (firstn k m)).

(** ** What the sample does to the world *)

Inductive fs_mode_t : Set :=
| FS_O_CREATE.

Inductive disk_ioctl_cmd : Set :=
| DISK_IOCTL_CTRL_INIT
| DISK_IOCTL_GET_SECTOR_COUNT
| DISK_IOCTL_GET_SECTOR_SIZE
| DISK_IOCTL_CTRL_DEINIT.

Inductive app_event : Set :=
| Ev (e : event)                 (* a directory call or a [printk] *)
| LogErr (fmt : string) (args : list printk_arg)
| LogInf (fmt : string) (args : list printk_arg)
| FsOpen (path : string) (flags : fs_mode_t) (res : Z)
| FsClose
| FsMkdir (path : string) (res : Z)
| DiskAccessIoctl (pdrv : string) (cmd : disk_ioctl_cmd) (res : Z)
| FsMount (mnt_point : string) (res : Z)
| FsUnmount (mnt_point : string) (res : Z).

(** What [fs_open] and [fs_mkdir] return for a path. *)
Record file_ops : Set := mk_file_ops {
  open_reply : string -> Z;
  mkdir_reply : string -> Z
}.

(** ** [create_some_entries] *)

Definition MAX_PATH : Z := 128.
Definition SOME_FILE_NAME : string := "some.dat".
Definition SOME_DIR_NAME : string := "some".
Definition SOME_REQUIRED_LEN : Z :=
  Z.max (sizeof_str SOME_FILE_NAME) (sizeof_str SOME_DIR_NAME).

(** [create_some_entries]: [None] when an array access is out of bounds,
    otherwise the returned [bool] and the events.  [junk] is what the
    uninitialised [path] array holds on entry. *)
Definition create_some_entries (ops : file_ops) (junk : nat -> ascii)
    (base_path : string) : option (bool * list app_event) :=
  let path := uninitialised junk (Z.to_nat MAX_PATH) in
  let base := wrap_int (strlen base_path) in
  if MAX_PATH - SOME_REQUIRED_LEN <=? to_size_t base then
    Some (false,
          [LogErr "Not enough concatenation buffer to create file paths" []])
  else
    let out := [LogInf "Creating some dir entries in %s" [Str (c_str base_path)]] in
    path <- strncpy path base_path (Z.to_nat MAX_PATH) ;;
    path <- store path base "/" ;;
    let base := wrap_int (base + 1) in
    path <- store path base NUL ;;
    path <- strcat path base SOME_FILE_NAME ;;
    file_path <- load_str path ;;
    let res := open_reply ops file_path in
    let out := out ++ [FsOpen file_path FS_O_CREATE res] in
    if negb (res =? 0) then
      Some (false, out ++ [LogErr "Failed to create file %s" [Str file_path]])
    else
      let out := out ++ [FsClose] in
      path <- store path base NUL ;;
      path <- strcat path base SOME_DIR_NAME ;;
      dir_path <- load_str path ;;
      let res := mkdir_reply ops dir_path in
      let out := out ++ [FsMkdir dir_path res] in
      let out :=
        if negb (res =? 0) then
          (* it has at least created the file: still true *)
          out ++ [LogErr "Failed to create dir %s" [Str dir_path]]
        else out in
      Some (true, out).

(** ** [main] *)

(** The build configuration: FAT ([FS_RET_OK] is the library's [FR_OK]) or
    ext2, with or without [CONFIG_FS_SAMPLE_CREATE_SOME_ENTRIES]. *)
Record config : Set := mk_config {
  FS_RET_OK : Z;
  DISK_DRIVE_NAME : string;
  DISK_MOUNT_PT : string;
  CONFIG_FS_SAMPLE_CREATE_SOME_ENTRIES : bool
}.

Definition fat_config (FR_OK : Z) (create : bool) : config :=
  {| FS_RET_OK := FR_OK;
     DISK_DRIVE_NAME := "SD";
     DISK_MOUNT_PT := "/SD:";
     CONFIG_FS_SAMPLE_CREATE_SOME_ENTRIES := create |}.

Definition ext2_config (create : bool) : config :=
  {| FS_RET_OK := 0;
     DISK_DRIVE_NAME := "SDMMC";
     DISK_MOUNT_PT := "/ext";
     CONFIG_FS_SAMPLE_CREATE_SOME_ENTRIES := create |}.

(** What the platform answers at each call [main] makes. *)
Record platform : Set := mk_platform {
  ioctl_reply : disk_ioctl_cmd -> Z;
  sector_count : Z;            (* stored by GET_SECTOR_COUNT *)
  sector_size : Z;             (* stored by GET_SECTOR_SIZE *)
  mount_reply : Z;
  unmount_reply : Z;
  remount_reply : Z;
  last_unmount_reply : Z;
  card : filesystem;           (* the directories at the first listing *)
  files : file_ops;
  card_after : filesystem;     (* the directories at the second listing *)
  stack_junk : nat -> ascii
}.

Definition u32 (z : Z) : Z := z mod 2 ^ 32.
Definition u64 (z : Z) : Z := z mod 2 ^ 64.

(** [(uint32_t)(((uint64_t)block_count * block_size) >> 20)] on two
    [uint32_t] variables. *)
Definition memory_size_mb (block_count block_size : Z) : Z :=
  u32 (Z.shiftr (u64 (u32 block_count * u32 block_size)) 20).

Definition printk (fmt : string) (args : list printk_arg) : app_event :=
  Ev (Printk fmt args).

(** The [do { ... } while (0)] block: raw disk i/o. *)
Definition raw_disk_io (cfg : config) (p : platform) : list app_event :=
  let disk_pdrv := DISK_DRIVE_NAME cfg in
  let ioctl cmd := DiskAccessIoctl disk_pdrv cmd (ioctl_reply p cmd) in
  let out := [ioctl DISK_IOCTL_CTRL_INIT] in
  if negb (ioctl_reply p DISK_IOCTL_CTRL_INIT =? 0) then
    out ++ [LogErr "Storage init ERROR!" []]
  else
    let out := out ++ [ioctl DISK_IOCTL_GET_SECTOR_COUNT] in
    if negb (ioctl_reply p DISK_IOCTL_GET_SECTOR_COUNT =? 0) then
      out ++ [LogErr "Unable to get sector count" []]
    else
      let block_count := u32 (sector_count p) in
      let out := out ++ [LogInf "Block count %u" [Int block_count]] in
      let out := out ++ [ioctl DISK_IOCTL_GET_SECTOR_SIZE] in
      if negb (ioctl_reply p DISK_IOCTL_GET_SECTOR_SIZE =? 0) then
        out ++ [LogErr "Unable to get sector size" []]
      else
        let block_size := u32 (sector_size p) in
        let out := out ++ [printk "Sector size %u\n" [Int block_size]] in
        let out := out ++
          [printk "Memory Size(MB) %u\n"
             [Int (memory_size_mb block_count block_size)]] in
        let out := out ++ [ioctl DISK_IOCTL_CTRL_DEINIT] in
        if negb (ioctl_reply p DISK_IOCTL_CTRL_DEINIT =? 0) then
          out ++ [LogErr "Storage deinit ERROR!" []]
        else out.

(** How [main] ends: it returns a code, or it stays in its
    [while (1) k_sleep(...)] loop. *)
Inductive main_result : Set :=
| Exit (res : Z)
| Idle.

(** The listing part: [lsdir], and on an empty listing the entries and a
    second [lsdir]. *)
Definition list_and_populate (cfg : config) (p : platform)
  : option (list app_event) :=
  let disk_mount_pt := DISK_MOUNT_PT cfg in
  let (n, evs) := lsdir (card p) disk_mount_pt in
  let out := map Ev evs in
  if n =? 0 then
    if CONFIG_FS_SAMPLE_CREATE_SOME_ENTRIES cfg then
      let out := out ++ [printk "Creating some entries\n" []] in
      r <- create_some_entries (files p) (stack_junk p) disk_mount_pt ;;
      let out := out ++ snd r in
      if fst r then
        Some (out ++ map Ev (snd (lsdir (card_after p) disk_mount_pt)))
      else Some out
    else Some out
  else Some out.

(** [main]: [None] when an array access is out of bounds. *)
Definition main (cfg : config) (p : platform)
  : option (main_result * list app_event) :=
  let disk_mount_pt := DISK_MOUNT_PT cfg in
  let out := raw_disk_io cfg p in
  let res := mount_reply p in
  let out := out ++ [FsMount disk_mount_pt res] in
  if res =? FS_RET_OK cfg then
    let out := out ++ [printk "Disk mounted.\n" []] in
    (* Try to unmount and remount the disk *)
    let res := unmount_reply p in
    let out := out ++ [FsUnmount disk_mount_pt res] in
    if negb (res =? FS_RET_OK cfg) then
      Some (Exit res, out ++ [printk "Error unmounting disk\n" []])
    else
      let res := remount_reply p in
      let out := out ++ [FsMount disk_mount_pt res] in
      if negb (res =? FS_RET_OK cfg) then
        Some (Exit res, out ++ [printk "Error remounting disk\n" []])
      else
        evs <- list_and_populate cfg p ;;
        let out := out ++ evs in
        Some (Idle, out ++ [FsUnmount disk_mount_pt (last_unmount_reply p)])
  else
    let out := out ++ [printk "Error mounting disk.\n" []] in
    Some (Idle, out ++ [FsUnmount disk_mount_pt (last_unmount_reply p)]).

(** ** Reading a trace of the sample *)

Definition is_write (e : app_event) : bool :=
  match e with
  | FsOpen _ _ _ | FsMkdir _ _ => true
  | _ => false
  end.

Definition is_close (e : app_event) : bool :=
  match e with
  | FsClose => true
  | _ => false
  end.

Definition is_mkdir (e : app_event) : bool :=
  match e with
  | FsMkdir _ _ => true
  | _ => false
  end.

(** An [fs_open] that returned 0. *)
Definition is_open_ok (e : app_event) : bool :=
  match e with
  | FsOpen _ _ res => res =? 0
  | _ => false
  end.

(** A call on a directory handle. *)
Definition is_dir_call (e : app_event) : bool :=
  match e with
  | Ev (Printk _ _) => false
  | Ev _ => true
  | _ => false
  end.

Definition all_ioctl_cmds : list disk_ioctl_cmd :=
  [DISK_IOCTL_CTRL_INIT; DISK_IOCTL_GET_SECTOR_COUNT;
   DISK_IOCTL_GET_SECTOR_SIZE; DISK_IOCTL_CTRL_DEINIT].

Fixpoint ioctl_cmds (evs : list app_event) : list disk_ioctl_cmd :=
  match evs with
  | [] => []
  | DiskAccessIoctl _ cmd _ :: evs' => cmd :: ioctl_cmds evs'
  | _ :: evs' => ioctl_cmds evs'
  end.

(** The directory-handle protocol of a listing: closed, open, closed for
    good.  [dir_step] is [None] on a call that the state does not allow. *)
Inductive dir_state : Set :=
| NotOpened
| Opened
| Closed.

Definition dir_step (st : dir_state) (e : event) : option dir_state :=
  match e, st with
  | FsOpendir _ res, NotOpened => Some (if res =? 0 then Opened else NotOpened)
  | FsOpendir _ _, _ => None
  | FsReaddir _ _, Opened => Some Opened
  | FsReaddir _ _, _ => None
  | FsClosedir, Opened => Some Closed
  | FsClosedir, _ => None
  | Printk _ _, _ => Some st
  end.

Fixpoint dir_run (st : dir_state) (evs : list event) : option dir_state :=
  match evs with
  | [] => Some st
  | e :: evs' =>
      match dir_step st e with
      | Some st' => dir_run st' evs'
      | None => None
      end
  end.

(** Whether the next read of a directory ends the listing without error:
    nothing left, or the end-of-dir entry. *)
Definition at_end_of_dir (dirp : list readdir_reply) : bool :=
  match dirp with
  | [] => true
  | (res, entry) :: _ => (res =? 0) && name_is_empty entry
  end.

(** The replies of a directory that reads [entries] without error. *)
Definition reads_ok (entries : list fs_dirent) : list readdir_reply :=
  map (fun e => (0, e)) entries.

(** A directory of [n] files that all read without error. *)
Definition a_file : fs_dirent :=
  {| type := FS_DIR_ENTRY_FILE; name := "f"; size := 0 |}.

Definition n_files (n : nat) : filesystem :=
  {| opendir_reply := fun _ => 0;
     readdir_replies := fun _ => reads_ok (repeat a_file n) |}.

(** The line of [main] that reports the size of the disk. *)
Definition is_memory_size_line (e : app_event) : bool :=
  match e with
  | Ev (Printk fmt _) => (fmt =? "Memory Size(MB) %u\n")%string
  | _ => false
  end.

(** A path of [n] characters. *)
Definition long_path (n : nat) : string :=
  string_of_list_ascii (repeat "a"%char n).

Definition all_ok : file_ops :=
  {| open_reply := fun _ => 0; mkdir_reply := fun _ => 0 |}.

Definition no_junk : nat -> ascii := fun _ => "x"%char.

(** An empty card: the first read reports end-of-dir. *)
Definition empty_card : filesystem :=
  {| opendir_reply := fun _ => 0;
     readdir_replies := fun _ => [(0, end_of_dir)] |}.

(** A 32 GB card with 512-byte sectors on which every call succeeds; it is
    empty at first and holds the two new entries at the second listing. *)
Definition good_platform : platform :=
  {| ioctl_reply := fun _ => 0;
     sector_count := 62333952;
     sector_size := 512;
     mount_reply := 0;
     unmount_reply := 0;
     remount_reply := 0;
     last_unmount_reply := 0;
     card := empty_card;
     files := all_ok;
     card_after :=
       {| opendir_reply := fun _ => 0;
          readdir_replies := fun _ =>
            [ (0, mk_dirent FS_DIR_ENTRY_FILE "some.dat" 0);
              (0, mk_dirent FS_DIR_ENTRY_DIR "some" 0);
              (0, end_of_dir) ] |};
     stack_junk := no_junk |}.

End FsMain.

(* ================================================================== *)
(** * Theorems *)
(* ================================================================== *)

Module PowerFacts.
Import Power.

Section Hooks.
Context {hdr : soc_headers}.

(** The two [case] labels of a [switch] are different constants: C rejects a
    [switch] with a repeated label. *)
Hypothesis case_labels_distinct : PM_STATE_STANDBY <> PM_STATE_SOFT_OFF.

Lemma standby_not_soft_off : (PM_STATE_STANDBY =? PM_STATE_SOFT_OFF) = false.
Proof. now apply Z.eqb_neq. Qed.

Lemma bind_ret_l {A B} (a : A) (k : A -> M B) (s : soc) :
  bind (ret a) k s = k a s.
Proof. reflexivity. Qed.

Lemma bind_noreturn {A B} (m : M A) (k : A -> M B) (s s' : soc) :
  m s = (NoReturn, s') -> bind m k s = (NoReturn, s').
Proof. unfold bind. now intros ->. Qed.

Lemma bind_returned {A B} (m : M A) (k : A -> M B) (s s' : soc) (a : A) :
  m s = (Returned a, s') -> bind m k s = k a s'.
Proof. unfold bind. now intros ->. Qed.

Lemma record_record (c1 c2 : hw_call) (s : soc) :
  record c2 (record c1 s) =
  {| mstatus := mstatus s; calls := calls s ++ [c1; c2] |}.
Proof. unfold record. cbn. now rewrite <- app_assoc. Qed.

Lemma last_two {A} (l : list A) (a b d : A) : last (l ++ [a; b]) d = b.
Proof.
  change [a; b] with ([a] ++ [b]). rewrite app_assoc. apply last_last.
Qed.

(** The soft-off branch of [pm_state_set], run to its end. *)
Lemma pm_state_set_soft_off_run (substate_id : Z) (s : soc) :
  pm_state_set PM_STATE_SOFT_OFF substate_id s =
  (NoReturn,
   {| mstatus := mstatus s;
      calls := calls s ++
        [EspSleepPdConfig ESP_PD_DOMAIN_RTC_PERIPH ESP_PD_OPTION_ON;
         EspDeepSleepStart] |}).
Proof.
  unfold pm_state_set. rewrite Z.eqb_refl.
  unfold bind, esp_sleep_pd_config, esp_deep_sleep_start.
  now rewrite record_record.
Qed.

(** The standby branch of [pm_state_exit_post_ops], run to its end. *)
Lemma pm_state_exit_post_ops_standby_run (substate_id : Z) (s : soc) :
  pm_state_exit_post_ops PM_STATE_STANDBY substate_id s =
  (Returned tt,
   {| mstatus := arch_irq_unlock MSTATUS_IEN (mstatus s);
      calls := calls s ++ [IrqUnlock MSTATUS_IEN; Wfi; EspLightSleepStart] |}).
Proof.
  unfold pm_state_exit_post_ops. rewrite standby_not_soft_off, Z.eqb_refl.
  unfold bind, irq_unlock, wfi, esp_light_sleep_start, ret, record. cbn.
  now rewrite <- !app_assoc.
Qed.

(** The [default] branch of either hook. *)
Lemma default_branch_run (state : Z) (s : soc) :
  (LOG_DBG "Unsupported power state %u" state ;; ret tt) s =
  (Returned tt, record (Log LOG_LEVEL_DBG "Unsupported power state %u" state) s).
Proof. reflexivity. Qed.

(** C1.  For every substate, [pm_state_set] with the soft-off state makes
    exactly two platform calls: it configures the RTC-peripheral power domain
    to stay on, then it requests deep sleep.  Nothing else changes. *)
Theorem pm_state_set_soft_off_calls (substate_id : Z) (s : soc) :
  let s' := snd (pm_state_set PM_STATE_SOFT_OFF substate_id s) in
  calls s' =
    calls s ++
    [EspSleepPdConfig ESP_PD_DOMAIN_RTC_PERIPH ESP_PD_OPTION_ON;
     EspDeepSleepStart]
  /\ mstatus s' = mstatus s.
Proof.
  cbv zeta. rewrite pm_state_set_soft_off_run. split; reflexivity.
Qed.

(** C2.  For every substate, [pm_state_exit_post_ops] with the standby state
    makes exactly three platform calls, in this order: unlock the interrupt
    mask, halt on wait-for-interrupt, enter light sleep; then it returns. *)
Theorem pm_state_exit_post_ops_standby_calls (substate_id : Z) (s : soc) :
  let r := pm_state_exit_post_ops PM_STATE_STANDBY substate_id s in
  fst r = Returned tt /\
  calls (snd r) =
    calls s ++ [IrqUnlock MSTATUS_IEN; Wfi; EspLightSleepStart] /\
  filter is_hw_action [IrqUnlock MSTATUS_IEN; Wfi; EspLightSleepStart] =
    [IrqUnlock MSTATUS_IEN; Wfi; EspLightSleepStart].
Proof.
  cbv zeta. rewrite pm_state_exit_post_ops_standby_run. repeat split.
Qed.

(** C3.  For a state that is neither soft-off nor standby, and any substate,
    both hooks return normally, leave the hardware as it was, and the one
    thing they do is emit a single debug-level log line. *)
Theorem unsupported_state_only_logs (state substate_id : Z) (s : soc) :
  state <> PM_STATE_SOFT_OFF ->
  state <> PM_STATE_STANDBY ->
  let line := Log LOG_LEVEL_DBG "Unsupported power state %u" state in
  pm_state_set state substate_id s =
    (Returned tt, {| mstatus := mstatus s; calls := calls s ++ [line] |}) /\
  pm_state_exit_post_ops state substate_id s =
    (Returned tt, {| mstatus := mstatus s; calls := calls s ++ [line] |}) /\
  filter is_hw_action [line] = [] /\
  is_log_at LOG_LEVEL_DBG line = true.
Proof.
  intros Hoff Hsb. cbv zeta.
  apply Z.eqb_neq in Hoff. apply Z.eqb_neq in Hsb.
  unfold pm_state_set, pm_state_exit_post_ops.
  rewrite Hoff, Hsb, default_branch_run.
  repeat split.
Qed.

(** C4.  The substate never matters: for every state and every two
    substates, each hook behaves the same from every starting point. *)
Theorem substate_id_ignored (state s1 s2 : Z) (s : soc) :
  pm_state_set state s1 s = pm_state_set state s2 s /\
  pm_state_exit_post_ops state s1 s = pm_state_exit_post_ops state s2 s.
Proof. split; reflexivity. Qed.

(** C5.  For every substate, [pm_state_set] with the standby state does
    nothing: no call is made, no register changes, nothing is logged, and
    the hook returns. *)
Theorem pm_state_set_standby_noop (substate_id : Z) (s : soc) :
  pm_state_set PM_STATE_STANDBY substate_id s = (Returned tt, s).
Proof.
  unfold pm_state_set.
  now rewrite standby_not_soft_off, Z.eqb_refl.
Qed.

(** C6.  For every substate, [pm_state_exit_post_ops] with the soft-off
    state does nothing: no call is made, nothing is logged, and the hook
    returns. *)
Theorem pm_state_exit_post_ops_soft_off_noop (substate_id : Z) (s : soc) :
  pm_state_exit_post_ops PM_STATE_SOFT_OFF substate_id s = (Returned tt, s).
Proof.
  unfold pm_state_exit_post_ops. now rewrite Z.eqb_refl.
Qed.

(** C7.  Both hooks are defined on every state and substate and have no
    failure path: [pm_state_exit_post_ops] always returns (a [void], no error
    code), and [pm_state_set] returns likewise except in the soft-off state,
    where it ends in deep sleep, its last call. *)
Theorem hooks_total (state substate_id : Z) (s : soc) :
  (exists s',
     pm_state_set state substate_id s = (Returned tt, s') \/
     (state = PM_STATE_SOFT_OFF /\
      pm_state_set state substate_id s = (NoReturn, s') /\
      last (calls s') EspDeepSleepStart = EspDeepSleepStart /\
      calls s' <> [])) /\
  (exists s', pm_state_exit_post_ops state substate_id s = (Returned tt, s')).
Proof.
  split.
  - destruct (Z.eqb_spec state PM_STATE_SOFT_OFF) as [-> | Hoff].
    + eexists. right. split; [reflexivity |].
      split; [apply pm_state_set_soft_off_run |]. cbn [calls].
      split; [| now destruct (calls s)].
      apply last_two.
    + unfold pm_state_set. apply Z.eqb_neq in Hoff. rewrite Hoff.
      destruct (state =? PM_STATE_STANDBY); eexists; left; reflexivity.
  - unfold pm_state_exit_post_ops.
    destruct (state =? PM_STATE_SOFT_OFF); [eexists; reflexivity |].
    destruct (state =? PM_STATE_STANDBY); eexists; reflexivity.
Qed.

(** C8.  In the soft-off state [pm_state_set] does not come back: the
    deep-sleep request is the last thing it does, whatever the caller has
    sequenced after the hook does not run, and from there execution resumes
    only on an external wake event, at the reset entry. *)
Theorem pm_state_set_soft_off_no_return (substate_id : Z) (s : soc) :
  let r := pm_state_set PM_STATE_SOFT_OFF substate_id s in
  fst r = NoReturn /\
  (exists before, calls (snd r) = calls s ++ before ++ [EspDeepSleepStart]) /\
  (forall (B : Type) (k : unit -> M B),
     bind (pm_state_set PM_STATE_SOFT_OFF substate_id) k s =
     (NoReturn, snd r)) /\
  (forall w e, resumes_at (fst r) w = Some e ->
               w = Some ExternalWake /\ e = ResetEntry).
Proof.
  cbv zeta. rewrite pm_state_set_soft_off_run. cbn [fst snd calls].
  split; [reflexivity |]. split; [| split].
  - now exists [EspSleepPdConfig ESP_PD_DOMAIN_RTC_PERIPH ESP_PD_OPTION_ON].
  - intros B k. apply bind_noreturn, pm_state_set_soft_off_run.
  - intros [[] |] e; cbn; [| discriminate].
    intros [= <-]. now split.
Qed.

(** Setting the enable bits leaves them set, whatever [mstatus] was. *)
Lemma unlock_with_ien_enables (m : Z) :
  interrupts_enabled (arch_irq_unlock MSTATUS_IEN m) = true.
Proof.
  unfold interrupts_enabled, arch_irq_unlock.
  apply Z.eqb_eq. rewrite Z.land_diag.
  apply Z.bits_inj'. intros n _.
  rewrite Z.land_spec, Z.lor_spec.
  now destruct (Z.testbit m n), (Z.testbit MSTATUS_IEN n).
Qed.

(** A lock followed by an unlock with the key of that lock puts [mstatus]
    back as the caller had it. *)
Lemma lock_unlock_restores (m : Z) :
  let (key, locked) := arch_irq_lock m in
  arch_irq_unlock key locked = m.
Proof.
  unfold arch_irq_lock, arch_irq_unlock.
  apply Z.bits_inj'. intros n _.
  rewrite Z.lor_spec, Z.ldiff_spec, Z.land_spec.
  now destruct (Z.testbit m n), (Z.testbit MSTATUS_IEN n).
Qed.

(** C9.  In the standby branch of [pm_state_exit_post_ops] the unlock key is
    the constant [MSTATUS_IEN], whatever the caller's [mstatus] was, so the
    hook leaves interrupts enabled from every starting state. *)
Theorem standby_unlock_uses_fixed_key (substate_id : Z) (s : soc) :
  let s' := snd (pm_state_exit_post_ops PM_STATE_STANDBY substate_id s) in
  (exists rest, calls s' = calls s ++ IrqUnlock MSTATUS_IEN :: rest /\
                Forall (fun c => forall k, c <> IrqUnlock k) rest) /\
  mstatus s' = arch_irq_unlock MSTATUS_IEN (mstatus s) /\
  interrupts_enabled (mstatus s') = true.
Proof.
  cbv zeta. rewrite pm_state_exit_post_ops_standby_run. cbn [snd calls mstatus].
  split; [| split].
  - exists [Wfi; EspLightSleepStart]. split; [reflexivity |].
    repeat constructor; discriminate.
  - reflexivity.
  - apply unlock_with_ien_enables.
Qed.

End Hooks.

(** ** The hooks run on the ESP32-C3 header values *)

Example pm_state_set_soft_off_esp32c3 :
  @pm_state_set esp32c3_headers 6 0 soc0 =
  (NoReturn,
   {| mstatus := 0; calls := [EspSleepPdConfig 0 1; EspDeepSleepStart] |}).
Proof. reflexivity. Qed.

Example pm_state_exit_post_ops_standby_esp32c3 :
  @pm_state_exit_post_ops esp32c3_headers 3 255 soc0 =
  (Returned tt,
   {| mstatus := 8; calls := [IrqUnlock 8; Wfi; EspLightSleepStart] |}).
Proof. reflexivity. Qed.

Example pm_state_exit_post_ops_suspend_to_ram_esp32c3 :
  @pm_state_exit_post_ops esp32c3_headers 4 0 soc0 =
  (Returned tt,
   {| mstatus := 0;
      calls := [Log LOG_LEVEL_DBG "Unsupported power state %u" 4] |}).
Proof. reflexivity. Qed.

Lemma pm_state_exit_post_ops_standby_calls_witness :
  @PM_STATE_STANDBY esp32c3_headers <> @PM_STATE_SOFT_OFF esp32c3_headers /\
  calls (snd (@pm_state_exit_post_ops esp32c3_headers 3 0 soc0)) =
    [IrqUnlock 8; Wfi; EspLightSleepStart].
Proof.
  assert (H : @PM_STATE_STANDBY esp32c3_headers <>
              @PM_STATE_SOFT_OFF esp32c3_headers) by (cbn; lia).
  split; [exact H |].
  exact (proj1 (proj2
    (@pm_state_exit_post_ops_standby_calls esp32c3_headers H 0 soc0))).
Defined.

Lemma unsupported_state_only_logs_witness :
  0 <> @PM_STATE_SOFT_OFF esp32c3_headers /\
  0 <> @PM_STATE_STANDBY esp32c3_headers /\
  @pm_state_set esp32c3_headers 0 7 soc0 =
    (Returned tt,
     {| mstatus := 0;
        calls := [Log LOG_LEVEL_DBG "Unsupported power state %u" 0] |}).
Proof.
  assert (H1 : 0 <> @PM_STATE_SOFT_OFF esp32c3_headers) by (cbn; lia).
  assert (H2 : 0 <> @PM_STATE_STANDBY esp32c3_headers) by (cbn; lia).
  split; [exact H1 |]. split; [exact H2 |].
  exact (proj1
    (@unsupported_state_only_logs esp32c3_headers 0 7 soc0 H1 H2)).
Defined.

Lemma pm_state_set_standby_noop_witness :
  @PM_STATE_STANDBY esp32c3_headers <> @PM_STATE_SOFT_OFF esp32c3_headers /\
  @pm_state_set esp32c3_headers 3 0 soc0 = (Returned tt, soc0).
Proof.
  assert (H : @PM_STATE_STANDBY esp32c3_headers <>
              @PM_STATE_SOFT_OFF esp32c3_headers) by (cbn; lia).
  split; [exact H |].
  exact (@pm_state_set_standby_noop esp32c3_headers H 0 soc0).
Defined.

Lemma standby_unlock_uses_fixed_key_witness :
  @PM_STATE_STANDBY esp32c3_headers <> @PM_STATE_SOFT_OFF esp32c3_headers /\
  @interrupts_enabled esp32c3_headers
    (mstatus (snd (@pm_state_exit_post_ops esp32c3_headers 3 0 soc0))) = true.
Proof.
  assert (H : @PM_STATE_STANDBY esp32c3_headers <>
              @PM_STATE_SOFT_OFF esp32c3_headers) by (cbn; lia).
  split; [exact H |].
  exact (proj2 (proj2
    (@standby_unlock_uses_fixed_key esp32c3_headers H 0 soc0))).
Defined.

End PowerFacts.

Module FsSampleFacts.
Import FsSample.

(** ** Arithmetic of [int] *)

Lemma wrap_int_in_range (z : Z) :
  INT_MIN <= z <= INT_MAX -> wrap_int z = z.
Proof.
  unfold INT_MIN, INT_MAX, wrap_int. intros Hz.
  rewrite Z.mod_small; lia.
Qed.

(** ** Traces *)

Lemma readdir_codes_app (a b : list event) :
  readdir_codes (a ++ b) = readdir_codes a ++ readdir_codes b.
Proof.
  induction a as [| e a IH]; [reflexivity |].
  destruct e; cbn; now rewrite IH.
Qed.

Lemma listed_app (a b : list event) :
  listed (a ++ b) = (listed a + listed b)%nat.
Proof. unfold listed. now rewrite filter_app, length_app. Qed.

Lemma handle_open_app (a b : list event) (open : bool) :
  handle_open open (a ++ b) = handle_open (handle_open open a) b.
Proof.
  revert open. induction a as [| e a IH]; intros open; [reflexivity |].
  destruct e; cbn; apply IH.
Qed.

Lemma is_listing_print_entry (e : fs_dirent) : is_listing (print_entry e) = true.
Proof. unfold print_entry. now destruct (type e). Qed.

Lemma print_entry_not_readdir (e : fs_dirent) (evs : list event) :
  readdir_codes (print_entry e :: evs) = readdir_codes evs.
Proof. unfold print_entry. now destruct (type e). Qed.

Lemma print_entry_keeps_handle (e : fs_dirent) (evs : list event) (open : bool) :
  handle_open open (print_entry e :: evs) = handle_open open evs.
Proof. unfold print_entry. now destruct (type e). Qed.

Lemma listed_cons_print_entry (e : fs_dirent) (evs : list event) :
  listed (print_entry e :: evs) = S (listed evs).
Proof.
  unfold listed. cbn [filter]. now rewrite is_listing_print_entry.
Qed.

(** ** The loop *)

(** From a counter that has room for the rest of the directory, the loop
    lists [n] entries, reads once more, and stops on that read: an error or
    end-of-dir.  It neither opens nor closes anything. *)
Lemma lsdir_loop_spec (dirp : list readdir_reply) :
  forall (count : Z) (out : list event),
    0 <= count ->
    count + Z.of_nat (List.length dirp) <= INT_MAX ->
    exists (res : Z) (n : nat) (new : list event),
      lsdir_loop dirp count out = (res, count + Z.of_nat n, out ++ new) /\
      readdir_codes new = repeat 0 n ++ [res] /\
      listed new = n /\
      (forall open, handle_open open new = open) /\
      (res = 0 \/ In res (map fst dirp)).
Proof.
  induction dirp as [| [res entry] dirp IH]; intros count out Hlo Hhi.
  - exists 0, 0%nat, [FsReaddir 0 end_of_dir]. cbn.
    rewrite Z.add_0_r. repeat split. now left.
  - cbn [lsdir_loop].
    destruct (negb (res =? 0) || name_is_empty entry) eqn:Hstop.
    + exists res, 0%nat, [FsReaddir res entry]. cbn.
      rewrite Z.add_0_r. repeat split. right. now left.
    + apply orb_false_iff in Hstop as [Hres _].
      apply negb_false_iff, Z.eqb_eq in Hres. subst res.
      cbn [List.length] in Hhi. rewrite Nat2Z.inj_succ in Hhi.
      rewrite wrap_int_in_range by (unfold INT_MIN, INT_MAX in *; lia).
      destruct (IH (count + 1) ((out ++ [FsReaddir 0 entry]) ++ [print_entry entry]))
        as (res' & n & new & Hrun & Hcodes & Hlisted & Hopen & Hin);
        [lia | lia |].
      exists res', (S n), (FsReaddir 0 entry :: print_entry entry :: new).
      split; [| split; [| split; [| split]]].
      * rewrite Hrun. rewrite <- !app_assoc. cbn [app].
        f_equal. f_equal. lia.
      * change (readdir_codes (FsReaddir 0 entry :: print_entry entry :: new))
          with (0 :: readdir_codes (print_entry entry :: new)).
        rewrite print_entry_not_readdir, Hcodes. reflexivity.
      * change (FsReaddir 0 entry :: print_entry entry :: new)
          with ([FsReaddir 0 entry] ++ print_entry entry :: new).
        rewrite listed_app, listed_cons_print_entry, Hlisted. reflexivity.
      * intros open.
        change (handle_open open (FsReaddir 0 entry :: print_entry entry :: new))
          with (handle_open open (print_entry entry :: new)).
        rewrite print_entry_keeps_handle. apply Hopen.
      * destruct Hin as [-> | Hin]; [now left | right; now right].
Qed.

(** When [fs_opendir] fails nothing is read and nothing is closed. *)
Lemma lsdir_opendir_failure (fs : filesystem) (path : string) :
  opendir_reply fs path <> 0 ->
  lsdir fs path =
    (opendir_reply fs path,
     [FsOpendir path (opendir_reply fs path);
      Printk "Error opening dir %s [%d]\n"
        [Str path; Int (opendir_reply fs path)]]).
Proof.
  intros Hfail. unfold lsdir. apply Z.eqb_neq in Hfail. now rewrite Hfail.
Qed.

Example lsdir_sd_card : fst (lsdir sd_card "/SD:") = 3.
Proof. reflexivity. Qed.

Example lsdir_sd_card_no_such_dir : fst (lsdir sd_card "/ext") = -2.
Proof. reflexivity. Qed.

Example lsdir_sd_card_io_error :
  fst (lsdir sd_card_io_error "/SD:") = -5 /\
  listed (snd (lsdir sd_card_io_error "/SD:")) = 1%nat /\
  readdir_codes (snd (lsdir sd_card_io_error "/SD:")) = [0; -5].
Proof. repeat split. Qed.

End FsSampleFacts.

Module LsdirFacts.
Import FsSample FsMain FsSampleFacts.

Lemma dir_run_app (a b : list event) (st : dir_state) :
  dir_run st (a ++ b) =
  match dir_run st a with
  | Some st' => dir_run st' b
  | None => None
  end.
Proof.
  revert st. induction a as [| e a IH]; intros st; [reflexivity |].
  cbn [app dir_run]. destruct (dir_step st e); [apply IH | reflexivity].
Qed.

Lemma dir_step_print_entry (e : fs_dirent) (st : dir_state) :
  dir_step st (print_entry e) = Some st.
Proof. unfold print_entry. now destruct (type e). Qed.

(** The events of the loop, whatever the counter does: reads and listing
    lines on an open handle, one read more than lines. *)
Lemma lsdir_loop_trace (dirp : list readdir_reply) :
  forall (count : Z) (out : list event),
  exists new : list event,
    snd (lsdir_loop dirp count out) = out ++ new /\
    dir_run Opened new = Some Opened /\
    List.length (readdir_codes new) = S (listed new).
Proof.
  induction dirp as [| [res entry] dirp IH]; intros count out.
  - exists [FsReaddir 0 end_of_dir]. repeat split.
  - cbn [lsdir_loop].
    destruct (negb (res =? 0) || name_is_empty entry).
    + exists [FsReaddir res entry]. repeat split.
    + destruct (IH (wrap_int (count + 1))
                  ((out ++ [FsReaddir res entry]) ++ [print_entry entry]))
        as (new & Hrun & Hdir & Hlen).
      exists (FsReaddir res entry :: print_entry entry :: new).
      split; [| split].
      * rewrite Hrun, <- !app_assoc. reflexivity.
      * change (dir_run Opened (FsReaddir res entry :: print_entry entry :: new))
          with (dir_run Opened (print_entry entry :: new)).
        cbn [dir_run]. now rewrite dir_step_print_entry.
      * change (readdir_codes (FsReaddir res entry :: print_entry entry :: new))
          with (res :: readdir_codes (print_entry entry :: new)).
        change (FsReaddir res entry :: print_entry entry :: new)
          with ([FsReaddir res entry] ++ print_entry entry :: new).
        rewrite print_entry_not_readdir, listed_app, listed_cons_print_entry.
        cbn [List.length]. rewrite Hlen. reflexivity.
Qed.

(** [lsdir] after a successful open, by its events. *)
Lemma lsdir_opened_trace (fs : filesystem) (path : string) :
  opendir_reply fs path = 0 ->
  exists (new : list event) (count : Z),
    snd (lsdir fs path) =
      [FsOpendir path 0; Printk "\nListing dir %s ...\n" [Str path]] ++
      new ++
      [Printk "Total: %d entries\n" [Int count];
       FsClosedir;
       Printk "Closed dir %s\n" [Str path]] /\
    dir_run Opened new = Some Opened /\
    List.length (readdir_codes new) = S (listed new).
Proof.
  intros Hopen. unfold lsdir. rewrite Hopen. cbn [Z.eqb negb app].
  destruct (lsdir_loop_trace (readdir_replies fs path) 0
              [FsOpendir path 0; Printk "\nListing dir %s ...\n" [Str path]])
    as (new & Hrun & Hrest).
  destruct (lsdir_loop (readdir_replies fs path) 0 _) as [[res count] out].
  cbn [snd] in Hrun. subst out.
  exists new, count. split; [| exact Hrest].
  cbn [snd]. rewrite <- !app_assoc. reflexivity.
Qed.

(** X1.  [lsdir] keeps to the directory protocol on every filesystem: it
    opens first, reads only while the handle is open, closes exactly once
    after the last read when the open succeeded, and neither reads nor
    closes when it failed. *)
Theorem lsdir_follows_protocol (fs : filesystem) (path : string) :
  dir_run NotOpened (snd (lsdir fs path)) =
  Some (if opendir_reply fs path =? 0 then Closed else NotOpened).
Proof.
  destruct (Z.eqb_spec (opendir_reply fs path) 0) as [Hopen | Hfail].
  - destruct (lsdir_opened_trace fs path Hopen) as (new & count & -> & Hdir & _).
    change (dir_run NotOpened
              ([FsOpendir path 0; Printk "\nListing dir %s ...\n" [Str path]] ++
               new ++
               [Printk "Total: %d entries\n" [Int count]; FsClosedir;
                Printk "Closed dir %s\n" [Str path]]))
      with (dir_run Opened
              (new ++
               [Printk "Total: %d entries\n" [Int count]; FsClosedir;
                Printk "Closed dir %s\n" [Str path]])).
    rewrite dir_run_app, Hdir. reflexivity.
  - rewrite (lsdir_opendir_failure fs path Hfail). cbn.
    apply Z.eqb_neq in Hfail. now rewrite Hfail.
Qed.

(** X2.  After a successful open [lsdir] reads exactly once more than it
    lists: one read per listed entry and the read that ends the loop.
    After a failed open it does not read at all. *)
Theorem lsdir_reads_once_more_than_listed (fs : filesystem) (path : string) :
  List.length (readdir_codes (snd (lsdir fs path))) =
  if opendir_reply fs path =? 0
  then S (listed (snd (lsdir fs path)))
  else 0%nat.
Proof.
  destruct (Z.eqb_spec (opendir_reply fs path) 0) as [Hopen | Hfail].
  - destruct (lsdir_opened_trace fs path Hopen) as (new & count & -> & _ & Hlen).
    rewrite !readdir_codes_app, !listed_app, !length_app, Hlen.
    cbn. lia.
  - rewrite (lsdir_opendir_failure fs path Hfail). reflexivity.
Qed.

(** The loop goes through entries that read without error and have a name. *)
Lemma lsdir_loop_reads_ok (entries : list fs_dirent) :
  forall (rest : list readdir_reply) (count : Z) (out : list event),
    0 <= count ->
    count + Z.of_nat (List.length entries) <= INT_MAX ->
    Forall (fun e => name_is_empty e = false) entries ->
    lsdir_loop (reads_ok entries ++ rest) count out =
    lsdir_loop rest (count + Z.of_nat (List.length entries))
      (out ++ flat_map (fun e => [FsReaddir 0 e; print_entry e]) entries).
Proof.
  induction entries as [| e entries IH]; intros rest count out Hlo Hhi Hnames.
  - cbn. now rewrite Z.add_0_r, app_nil_r.
  - inversion Hnames as [| ? ? Hname Hnames']; subst.
    cbn [reads_ok map app lsdir_loop]. rewrite Hname. cbn [Z.eqb negb orb].
    cbn [List.length] in *. rewrite Nat2Z.inj_succ in *.
    rewrite wrap_int_in_range by (unfold INT_MIN, INT_MAX in *; lia).
    fold (reads_ok entries). rewrite IH by (assumption || lia).
    f_equal; [lia |].
    cbn [flat_map]. rewrite <- !app_assoc. reflexivity.
Qed.

(** The loop at the end of the directory: one read, nothing listed. *)
Lemma lsdir_loop_at_end (dirp : list readdir_reply) (count : Z)
    (out : list event) :
  at_end_of_dir dirp = true ->
  exists e, lsdir_loop dirp count out = (0, count, out ++ [FsReaddir 0 e]).
Proof.
  destruct dirp as [| [res entry] dirp]; intros Hend.
  - now exists end_of_dir.
  - cbn in Hend. apply andb_true_iff in Hend as [Hres Hname].
    apply Z.eqb_eq in Hres. subst res.
    exists entry. cbn [lsdir_loop]. rewrite Hname. reflexivity.
Qed.

Lemma listing_lines_of_entries (entries : list fs_dirent) :
  filter is_listing (flat_map (fun e => [FsReaddir 0 e; print_entry e]) entries) =
  map print_entry entries.
Proof.
  induction entries as [| e entries IH]; [reflexivity |].
  cbn [flat_map map].
  change ([FsReaddir 0 e; print_entry e] ++ ?l) with
    (FsReaddir 0 e :: print_entry e :: l).
  cbn [app filter is_listing]. rewrite is_listing_print_entry, IH. reflexivity.
Qed.

(** X3.  On a directory whose entries read without error up to the
    end-of-dir reply, [lsdir] returns their number and prints one line for
    each, in directory order; replies after the end-of-dir one do not
    matter. *)
Theorem lsdir_lists_every_entry (fs : filesystem) (path : string)
    (entries : list fs_dirent) (rest : list readdir_reply) :
  opendir_reply fs path = 0 ->
  readdir_replies fs path = reads_ok entries ++ rest ->
  Forall (fun e => name_is_empty e = false) entries ->
  at_end_of_dir rest = true ->
  Z.of_nat (List.length entries) <= INT_MAX ->
  fst (lsdir fs path) = Z.of_nat (List.length entries) /\
  filter is_listing (snd (lsdir fs path)) = map print_entry entries.
Proof.
  intros Hopen Hdir Hnames Hend Hroom.
  unfold lsdir. rewrite Hopen, Hdir. cbn [Z.eqb negb app].
  rewrite lsdir_loop_reads_ok by (assumption || lia).
  destruct (lsdir_loop_at_end rest (0 + Z.of_nat (List.length entries))
              ([FsOpendir path 0; Printk "\nListing dir %s ...\n" [Str path]] ++
               flat_map (fun e => [FsReaddir 0 e; print_entry e]) entries) Hend)
    as (e & ->).
  cbn [fst snd Z.eqb]. split; [lia |].
  rewrite !filter_app, listing_lines_of_entries. cbn.
  now rewrite !app_nil_r.
Qed.

(** X4.  [lsdir] returns 0 exactly when the directory opens and its first
    read already ends the listing without error: 0 means an empty directory,
    never a failure. *)
Theorem lsdir_zero_iff_empty (fs : filesystem) (path : string) :
  Z.of_nat (List.length (readdir_replies fs path)) <= INT_MAX ->
  fst (lsdir fs path) = 0 <->
  opendir_reply fs path = 0 /\ at_end_of_dir (readdir_replies fs path) = true.
Proof.
  intros Hroom. split.
  - intros Hzero.
    destruct (Z.eqb_spec (opendir_reply fs path) 0) as [Hopen | Hfail];
      [| rewrite (lsdir_opendir_failure fs path Hfail) in Hzero;
         contradiction].
    split; [assumption |].
    unfold lsdir in Hzero. rewrite Hopen in Hzero. cbn [Z.eqb negb app] in Hzero.
    destruct (readdir_replies fs path) as [| [res entry] dirp]; [reflexivity |].
    cbn [at_end_of_dir]. cbn [lsdir_loop] in Hzero.
    destruct (Z.eqb_spec res 0) as [-> | Hres].
    + cbn [negb orb andb] in *.
      destruct (name_is_empty entry); [reflexivity | exfalso].
      cbn [List.length] in Hroom. rewrite Nat2Z.inj_succ in Hroom.
      rewrite wrap_int_in_range in Hzero
        by (unfold INT_MIN, INT_MAX in *; lia).
      destruct (lsdir_loop_spec dirp (0 + 1)
                  ([FsOpendir path 0;
                    Printk "\nListing dir %s ...\n" [Str path];
                    FsReaddir 0 entry] ++ [print_entry entry]))
        as (res' & n & new & Hrun & _); [lia | lia |].
      cbn [app] in Hrun, Hzero. rewrite Hrun in Hzero. cbn [fst] in Hzero.
      destruct (Z.eqb_spec res' 0); lia.
    + exfalso. cbn [negb orb] in Hzero. cbn [fst] in Hzero.
      apply Z.eqb_neq in Hres as Hres'. rewrite Hres' in Hzero. contradiction.
  - intros [Hopen Hend]. unfold lsdir. rewrite Hopen. cbn [Z.eqb negb app].
    destruct (lsdir_loop_at_end (readdir_replies fs path) 0
                [FsOpendir path 0; Printk "\nListing dir %s ...\n" [Str path]]
                Hend) as (e & ->).
    reflexivity.
Qed.

(** A card root with a file and a directory, then the end-of-dir reply. *)
Lemma lsdir_lists_every_entry_witness :
  opendir_reply sd_card "/SD:" = 0 /\
  filter is_listing (snd (lsdir sd_card "/SD:")) =
    [Printk "[FILE] %s (size = %zu)\n" [Str "some.dat"; Int 0];
     Printk "[DIR ] %s\n" [Str "some"];
     Printk "[FILE] %s (size = %zu)\n" [Str "log.txt"; Int 12]].
Proof.
  split; [reflexivity |].
  refine (proj2 (lsdir_lists_every_entry sd_card "/SD:"
    [mk_dirent FS_DIR_ENTRY_FILE "some.dat" 0;
     mk_dirent FS_DIR_ENTRY_DIR "some" 0;
     mk_dirent FS_DIR_ENTRY_FILE "log.txt" 12]
    [(0, end_of_dir)] eq_refl eq_refl _ eq_refl _)).
  - repeat constructor.
  - vm_compute. discriminate.
Defined.

Lemma lsdir_zero_iff_empty_witness :
  Z.of_nat (List.length (readdir_replies sd_card "/SD:")) <= INT_MAX /\
  fst (lsdir sd_card "/SD:") <> 0.
Proof.
  assert (Hr : Z.of_nat (List.length (readdir_replies sd_card "/SD:")) <= INT_MAX)
    by (vm_compute; discriminate).
  split; [exact Hr |].
  intros Hzero.
  apply (proj1 (lsdir_zero_iff_empty sd_card "/SD:" Hr)) in Hzero.
  destruct Hzero as [_ Hend]. discriminate Hend.
Defined.

End LsdirFacts.

Module LsdirResult.
Import FsSample FsMain FsSampleFacts LsdirFacts.

(** Counting in [int] is counting modulo 2^32. *)
Lemma wrap_int_succ (c : Z) : wrap_int (wrap_int c + 1) = wrap_int (c + 1).
Proof.
  unfold wrap_int.
  change (2 ^ 31) with 2147483648. change (2 ^ 32) with 4294967296.
  Z.to_euclidean_division_equations. lia.
Qed.

(** The loop through entries that read without error, whatever their
    number: the counter is their number brought back into [int]. *)
Lemma lsdir_loop_reads_ok_wrap (entries : list fs_dirent) :
  forall (rest : list readdir_reply) (c : Z) (out : list event),
    Forall (fun e => name_is_empty e = false) entries ->
    lsdir_loop (reads_ok entries ++ rest) (wrap_int c) out =
    lsdir_loop rest (wrap_int (c + Z.of_nat (List.length entries)))
      (out ++ flat_map (fun e => [FsReaddir 0 e; print_entry e]) entries).
Proof.
  induction entries as [| e entries IH]; intros rest c out Hnames.
  - cbn. now rewrite Z.add_0_r, app_nil_r.
  - inversion Hnames as [| ? ? Hname Hnames']; subst.
    cbn [reads_ok map app lsdir_loop]. rewrite Hname. cbn [Z.eqb negb orb].
    fold (reads_ok entries). rewrite wrap_int_succ, IH by assumption.
    cbn [List.length]. rewrite Nat2Z.inj_succ.
    f_equal; [f_equal; lia |].
    cbn [flat_map]. rewrite <- !app_assoc. reflexivity.
Qed.

Lemma lsdir_loop_reads_ok_from_zero (entries : list fs_dirent)
    (rest : list readdir_reply) (out : list event) :
  Forall (fun e => name_is_empty e = false) entries ->
  lsdir_loop (reads_ok entries ++ rest) 0 out =
  lsdir_loop rest (wrap_int (Z.of_nat (List.length entries)))
    (out ++ flat_map (fun e => [FsReaddir 0 e; print_entry e]) entries).
Proof. exact (lsdir_loop_reads_ok_wrap entries rest 0 out). Qed.

(** Every directory splits, in one way, into the entries that read without
    error and what follows them: the end of the listing or a failing read. *)
Lemma replies_split (dirp : list readdir_reply) :
  exists entries rest,
    dirp = reads_ok entries ++ rest /\
    Forall (fun e => name_is_empty e = false) entries /\
    (at_end_of_dir rest = true \/
     exists c e rest', rest = (c, e) :: rest' /\ c <> 0).
Proof.
  induction dirp as [| [res entry] dirp IH].
  - exists [], []. repeat split; [constructor | now left].
  - destruct (Z.eqb_spec res 0) as [-> | Hres].
    + destruct (name_is_empty entry) eqn:Hname.
      * exists [], ((0, entry) :: dirp). repeat split; [constructor |].
        left. cbn. now rewrite Hname.
      * destruct IH as (entries & rest & -> & Hnames & Hrest).
        exists (entry :: entries), rest.
        repeat split; [now constructor | exact Hrest].
    + exists [], ((res, entry) :: dirp). repeat split; [constructor |].
      right. now exists res, entry, dirp.
Qed.

(** The return value of [lsdir] on a directory of [n] good files. *)
Lemma lsdir_n_files (n : nat) (path : string) :
  fst (lsdir (n_files n) path) = wrap_int (Z.of_nat n).
Proof.
  unfold lsdir, n_files.
  cbn [opendir_reply readdir_replies Z.eqb negb app].
  rewrite <- (app_nil_r (reads_ok (repeat a_file n))).
  rewrite lsdir_loop_reads_ok_from_zero
    by (apply Forall_forall; intros e He; apply repeat_spec in He; now subst).
  cbn [lsdir_loop fst Z.eqb]. now rewrite repeat_length.
Qed.



(** The theorem on a card whose second read fails: the code of that read
    comes back. *)
Example lsdir_returns_on_io_error :
  fst (lsdir sd_card_io_error "/SD:") = -5.
Proof. reflexivity. Qed.

Lemma n_files_all_succeed (n : nat) (path : string) :
  opendir_reply (n_files n) path = 0 /\
  Forall (fun r : readdir_reply => fst r = 0) (readdir_replies (n_files n) path).
Proof.
  split; [reflexivity |].
  unfold n_files, reads_ok. cbn [readdir_replies].
  apply Forall_forall. intros r Hr.
  apply in_map_iff in Hr as (e & <- & _). reflexivity.
Qed.

Lemma wrap_int_two_31 : wrap_int (2 ^ 31) = INT_MIN.
Proof. reflexivity. Qed.


End LsdirResult.

Module CreateFacts.
Import FsSample FsMain FsSampleFacts.

(** ** Lists as arrays *)

Lemma firstn_prefix {A} (pre l : list A) :
  firstn (List.length pre) (pre ++ l) = pre.
Proof. induction pre as [| x pre IH]; cbn; [reflexivity | now rewrite IH]. Qed.

Lemma skipn_prefix {A} (pre l : list A) (n : nat) :
  skipn (List.length pre + n) (pre ++ l) = skipn n l.
Proof. induction pre as [| x pre IH]; cbn; [reflexivity | apply IH]. Qed.

Lemma skipn_block {A} (old post : list A) :
  skipn (List.length old) (old ++ post) = post.
Proof.
  rewrite <- (Nat.add_0_r (List.length old)). now rewrite skipn_prefix.
Qed.

Lemma split_at {A} (l : list A) (n : nat) :
  (n <= List.length l)%nat ->
  exists old post, l = old ++ post /\ List.length old = n.
Proof.
  intros Hn. exists (firstn n l), (skipn n l). split.
  - symmetry. apply firstn_skipn.
  - apply firstn_length_le, Hn.
Qed.

(** Overwriting a block in the middle of an array. *)
Lemma write_at_mid (pre old post bytes : list ascii) (i : Z) :
  i = Z.of_nat (List.length pre) ->
  List.length old = List.length bytes ->
  write_at (pre ++ old ++ post) i bytes = Some (pre ++ bytes ++ post).
Proof.
  intros -> Hlen. unfold write_at.
  rewrite !length_app, Nat2Z.id.
  replace ((0 <=? Z.of_nat (List.length pre)) &&
           (Z.of_nat (List.length pre) + Z.of_nat (List.length bytes) <=?
            Z.of_nat (List.length pre + (List.length old + List.length post))))
    with true by (symmetry; apply andb_true_iff; split; apply Z.leb_le; lia).
  rewrite firstn_prefix, skipn_prefix, <- Hlen, skipn_block. reflexivity.
Qed.

Lemma store_mid (pre post : list ascii) (x c : ascii) (i : Z) :
  i = Z.of_nat (List.length pre) ->
  store (pre ++ x :: post) i c = Some (pre ++ c :: post).
Proof.
  intros Hi. unfold store.
  apply (write_at_mid pre [x] post [c] i Hi eq_refl).
Qed.

Lemma c_str_nul_free (s : string) :
  Forall (fun c => Ascii.eqb c NUL = false) (list_ascii_of_string (c_str s)).
Proof.
  induction s as [| c s IH]; cbn; [constructor |].
  destruct (Ascii.eqb c NUL) eqn:Hc; cbn; constructor; assumption.
Qed.

Lemma find_nul_prefix (body post : list ascii) :
  Forall (fun c => Ascii.eqb c NUL = false) body ->
  find_nul (body ++ NUL :: post) = Some (List.length body).
Proof.
  induction 1 as [| c body Hc _ IH]; [reflexivity |].
  cbn [app find_nul List.length]. now rewrite Hc, IH.
Qed.

Lemma load_str_prefix (body post : list ascii) :
  Forall (fun c => Ascii.eqb c NUL = false) body ->
  load_str (body ++ NUL :: post) = Some (string_of_list_ascii body).
Proof.
  intros Hbody. unfold load_str. rewrite (find_nul_prefix _ _ Hbody).
  cbn [obind]. now rewrite firstn_prefix.
Qed.

Lemma length_chars (s : string) :
  List.length (list_ascii_of_string s) = String.length s.
Proof. induction s as [| c s IH]; cbn; [reflexivity | now rewrite IH]. Qed.

(** [strcat] onto an empty string that sits in the middle of an array. *)
Lemma strcat_mid (pre old post : list ascii) (src : string) (i : Z) :
  i = Z.of_nat (List.length pre) ->
  List.length old = String.length (c_str src) ->
  strcat (pre ++ NUL :: old ++ post) i src =
  Some (pre ++ list_ascii_of_string (c_str src) ++ NUL :: post).
Proof.
  intros -> Hlen. unfold strcat.
  replace (0 <=? Z.of_nat (List.length pre)) with true
    by (symmetry; apply Z.leb_le; lia).
  rewrite Nat2Z.id, skipn_block.
  cbn [find_nul]. change (Ascii.eqb NUL NUL) with true. cbn [obind Z.of_nat].
  rewrite Z.add_0_r.
  change (NUL :: old ++ post) with ((NUL :: old) ++ post).
  rewrite (write_at_mid pre (NUL :: old) post
             (list_ascii_of_string (c_str src) ++ [NUL])
             _ eq_refl).
  - now rewrite <- !app_assoc.
  - rewrite length_app, length_chars, <- Hlen. cbn. lia.
Qed.

Lemma string_of_list_ascii_snoc (l1 l2 : list ascii) :
  string_of_list_ascii (l1 ++ l2) =
  (string_of_list_ascii l1 ++ string_of_list_ascii l2)%string.
Proof. induction l1 as [| c l1 IH]; cbn; [reflexivity | now rewrite IH]. Qed.

(** ** The [int] that holds the length *)

Lemma guard_passes (len : Z) :
  0 <= len ->
  to_size_t (wrap_int len) < 119 ->
  0 <= wrap_int len < 119 /\ wrap_int len <= len.
Proof.
  unfold to_size_t, wrap_int.
  change (2 ^ 31) with 2147483648. change (2 ^ 32) with 4294967296.
  intros Hlen Hguard. Z.to_euclidean_division_equations. lia.
Qed.

Lemma guard_rejects (len : Z) :
  119 <= len < 2 ^ 32 ->
  119 <= to_size_t (wrap_int len).
Proof.
  unfold to_size_t, wrap_int.
  change (2 ^ 31) with 2147483648. change (2 ^ 32) with 4294967296.
  intros Hlen. Z.to_euclidean_division_equations. lia.
Qed.

Lemma short_length_kept (len : Z) :
  0 <= len < 119 -> wrap_int len = len /\ to_size_t (wrap_int len) < 119.
Proof.
  unfold to_size_t, wrap_int.
  change (2 ^ 31) with 2147483648. change (2 ^ 32) with 4294967296.
  intros Hlen. Z.to_euclidean_division_equations. lia.
Qed.

(** ** The [path] array *)

Lemma strncpy_fresh (junk : nat -> ascii) (src : string) (n : nat) :
  strncpy (uninitialised junk n) src n =
  Some (firstn n (list_ascii_of_string (c_str src) ++ repeat NUL n)).
Proof.
  unfold strncpy.
  rewrite <- (app_nil_r (uninitialised junk n)) at 1.
  change (uninitialised junk n ++ [])
    with ([] ++ uninitialised junk n ++ []).
  rewrite (write_at_mid [] (uninitialised junk n) [] _ 0 eq_refl).
  - cbn [app]. now rewrite app_nil_r.
  - unfold uninitialised. rewrite length_map, length_seq.
    symmetry. apply firstn_length_le.
    rewrite length_app, repeat_length. lia.
Qed.

(** The array after [strncpy], seen from index [k]: the first [k]
    characters of the source, then room for ten bytes at least. *)
Lemma fresh_copy_shape (cs : list ascii) (k : nat) :
  (k <= List.length cs)%nat ->
  (k + 10 <= 128)%nat ->
  exists t0 t1 old post,
    firstn 128 (cs ++ repeat NUL 128) = firstn k cs ++ t0 :: t1 :: old ++ post /\
    List.length old = 8%nat.
Proof.
  intros Hk Hroom.
  set (B := firstn 128 (cs ++ repeat NUL 128)).
  assert (HB : List.length B = 128%nat).
  { apply firstn_length_le. rewrite length_app, repeat_length. lia. }
  assert (Hhead : firstn k B = firstn k cs).
  { unfold B. rewrite firstn_firstn, Nat.min_l by lia.
    rewrite firstn_app. replace (k - List.length cs)%nat with 0%nat by lia.
    now rewrite firstn_O, app_nil_r. }
  assert (Htail : List.length (skipn k B) = (128 - k)%nat)
    by (rewrite length_skipn; lia).
  rewrite <- (firstn_skipn k B), Hhead.
  destruct (skipn k B) as [| t0 [| t1 rest]]; cbn [List.length] in Htail;
    [lia | lia |].
  destruct (split_at rest 8) as (old & post & -> & Hold); [lia |].
  now exists t0, t1, old, post.
Qed.

Lemma nul_free_firstn (l : list ascii) (n : nat) :
  Forall (fun c => Ascii.eqb c NUL = false) l ->
  Forall (fun c => Ascii.eqb c NUL = false) (firstn n l).
Proof.
  intros Hl. revert n. induction Hl as [| c l Hc _ IH]; intros [| n]; cbn;
    constructor; auto.
Qed.

(** What [create_some_entries] does once the guard has passed, on the
    paths it builds. *)
#[local] Abbreviation after_guard ops shown file_path dir_path :=
  (let out := [LogInf "Creating some dir entries in %s" [Str shown]] in
   let out := out ++ [FsOpen file_path FS_O_CREATE (open_reply ops file_path)] in
   if negb (open_reply ops file_path =? 0) then
     (false, out ++ [LogErr "Failed to create file %s" [Str file_path]])
   else
     let out := out ++ [FsClose] in
     let out := out ++ [FsMkdir dir_path (mkdir_reply ops dir_path)] in
     (true,
      if negb (mkdir_reply ops dir_path =? 0)
      then out ++ [LogErr "Failed to create dir %s" [Str dir_path]]
      else out)).

(** The run after the guard, for every base path: the paths are built from
    the first [base] characters of the C string. *)
Lemma create_some_entries_run (ops : file_ops) (junk : nat -> ascii)
    (base_path : string) :
  to_size_t (wrap_int (strlen base_path)) < 119 ->
  let stem :=
    string_of_list_ascii
      (firstn (Z.to_nat (wrap_int (strlen base_path)))
         (list_ascii_of_string (c_str base_path))) in
  create_some_entries ops junk base_path =
  Some (after_guard ops (c_str base_path)
          (stem ++ "/some.dat")%string (stem ++ "/some")%string).
Proof.
  intros Hguard.
  assert (Hlen : 0 <= strlen base_path) by (unfold strlen; lia).
  destruct (guard_passes _ Hlen Hguard) as [Hbase Hle].
  set (base := wrap_int (strlen base_path)) in *.
  set (cs := list_ascii_of_string (c_str base_path)).
  set (k := Z.to_nat base).
  assert (Hk : base = Z.of_nat k) by (unfold k; lia).
  assert (Hkcs : (k <= List.length cs)%nat).
  { unfold cs. rewrite length_chars. unfold strlen in Hle. lia. }
  assert (Hstem : List.length (firstn k cs) = k) by now apply firstn_length_le.
  assert (Hfree : Forall (fun c => Ascii.eqb c NUL = false) (firstn k cs))
    by apply nul_free_firstn, c_str_nul_free.
  cbv zeta. unfold create_some_entries. fold base.
  change (MAX_PATH - SOME_REQUIRED_LEN) with 119.
  change (Z.to_nat MAX_PATH) with 128%nat.
  replace (119 <=? to_size_t base) with false
    by (symmetry; apply Z.leb_gt; exact Hguard).
  rewrite strncpy_fresh. fold cs. cbn [obind].
  destruct (fresh_copy_shape cs k Hkcs) as (t0 & t1 & old & post & -> & Hold);
    [lia |].
  (* path[base++] = '/' *)
  rewrite (store_mid (firstn k cs) _ t0 "/" base) by lia.
  cbn [obind].
  rewrite (wrap_int_in_range (base + 1)) by (unfold INT_MIN, INT_MAX; lia).
  (* path[base] = 0 *)
  replace (firstn k cs ++ "/"%char :: t1 :: old ++ post)
    with ((firstn k cs ++ ["/"%char]) ++ t1 :: old ++ post)
    by now rewrite <- app_assoc.
  rewrite (store_mid (firstn k cs ++ ["/"%char]) _ t1 NUL (base + 1))
    by (rewrite length_app; cbn [List.length]; lia).
  cbn [obind].
  (* strcat(&path[base], SOME_FILE_NAME) *)
  rewrite (strcat_mid (firstn k cs ++ ["/"%char]) old post SOME_FILE_NAME (base + 1))
    by (rewrite ?length_app; cbn [List.length]; first [lia | exact Hold]).
  cbn [obind].
  set (pre := firstn k cs ++ ["/"%char]).
  assert (Hpre : Forall (fun c => Ascii.eqb c NUL = false) pre).
  { unfold pre. apply Forall_app. split; [exact Hfree |].
    now repeat constructor. }
  rewrite app_assoc, load_str_prefix
    by (apply Forall_app; split; [exact Hpre | now repeat constructor]).
  cbn [obind].
  replace (string_of_list_ascii
             (pre ++ list_ascii_of_string (c_str SOME_FILE_NAME)))
    with (string_of_list_ascii (firstn k cs) ++ "/some.dat")%string
    by (unfold pre; now rewrite <- app_assoc, string_of_list_ascii_snoc).
  set (file_path := (string_of_list_ascii (firstn k cs) ++ "/some.dat")%string).
  destruct (negb (open_reply ops file_path =? 0)); [reflexivity |].
  (* path[base] = 0 *)
  change ((pre ++ list_ascii_of_string (c_str SOME_FILE_NAME)) ++ NUL :: post)
    with ((pre ++ "s"%char :: list_ascii_of_string "ome.dat") ++ NUL :: post).
  rewrite <- app_assoc.
  change (("s"%char :: list_ascii_of_string "ome.dat") ++ NUL :: post)
    with ("s"%char :: list_ascii_of_string "ome." ++
          (list_ascii_of_string "dat" ++ NUL :: post)).
  rewrite (store_mid pre _ "s" NUL (base + 1))
    by (unfold pre; rewrite length_app; cbn [List.length]; lia).
  cbn [obind].
  (* strcat(&path[base], SOME_DIR_NAME) *)
  rewrite (strcat_mid pre (list_ascii_of_string "ome.") _ SOME_DIR_NAME (base + 1))
    by (first [reflexivity
              | unfold pre; rewrite length_app; cbn [List.length]; lia]).
  cbn [obind].
  rewrite app_assoc, load_str_prefix
    by (apply Forall_app; split; [exact Hpre | now repeat constructor]).
  cbn [obind].
  replace (string_of_list_ascii
             (pre ++ list_ascii_of_string (c_str SOME_DIR_NAME)))
    with (string_of_list_ascii (firstn k cs) ++ "/some")%string
    by (unfold pre; now rewrite <- app_assoc, string_of_list_ascii_snoc).
  reflexivity.
Qed.

Lemma create_some_entries_rejected (ops : file_ops) (junk : nat -> ascii)
    (base_path : string) :
  119 <= to_size_t (wrap_int (strlen base_path)) ->
  create_some_entries ops junk base_path =
  Some (false,
        [LogErr "Not enough concatenation buffer to create file paths" []]).
Proof.
  intros Hguard. unfold create_some_entries.
  change (MAX_PATH - SOME_REQUIRED_LEN) with 119.
  now replace (119 <=? to_size_t (wrap_int (strlen base_path))) with true
    by (symmetry; apply Z.leb_le; exact Hguard).
Qed.

Lemma create_some_entries_defined (ops : file_ops) (junk : nat -> ascii)
    (base_path : string) :
  exists r, create_some_entries ops junk base_path = Some r.
Proof.
  destruct (Z.lt_ge_cases (to_size_t (wrap_int (strlen base_path))) 119)
    as [Hpass | Hreject].
  - eexists. apply (create_some_entries_run ops junk base_path Hpass).
  - eexists. apply (create_some_entries_rejected ops junk base_path Hreject).
Qed.

(** X5.  [create_some_entries] stays inside its [path] array: for every base
    path, whatever the array held and whatever the filesystem answers, no
    write or read falls outside the 128 bytes. *)
Theorem create_some_entries_in_bounds (ops : file_ops) (junk : nat -> ascii)
    (base_path : string) :
  create_some_entries ops junk base_path <> None.
Proof.
  destruct (create_some_entries_defined ops junk base_path) as [r ->].
  discriminate.
Qed.

(** X6.  A base path of 119 characters or more is refused: the function
    returns false after one error line and calls nothing in the
    filesystem. *)
Theorem create_some_entries_too_long (ops : file_ops) (junk : nat -> ascii)
    (base_path : string) :
  119 <= strlen base_path < 2 ^ 32 ->
  create_some_entries ops junk base_path =
  Some (false,
        [LogErr "Not enough concatenation buffer to create file paths" []]).
Proof.
  intros Hlen. apply create_some_entries_rejected, guard_rejects, Hlen.
Qed.

(** X7.  With a base path of at most 118 characters the function opens
    [base_path/some.dat] with [FS_O_CREATE] and, when that succeeded, closes
    the file and makes the directory [base_path/some]; a failing [fs_open]
    ends it with false, a failing [fs_mkdir] only adds an error line. *)
Theorem create_some_entries_paths (ops : file_ops) (junk : nat -> ascii)
    (base_path : string) :
  strlen base_path < 119 ->
  create_some_entries ops junk base_path =
  Some (after_guard ops (c_str base_path)
          (c_str base_path ++ "/some.dat")%string
          (c_str base_path ++ "/some")%string).
Proof.
  intros Hlen.
  assert (Hpos : 0 <= strlen base_path) by (unfold strlen; lia).
  destruct (short_length_kept (strlen base_path)) as [Hsame Hguard]; [lia |].
  rewrite (create_some_entries_run ops junk base_path Hguard). cbv zeta.
  rewrite Hsame. unfold strlen. rewrite Nat2Z.id, <- length_chars, firstn_all.
  now rewrite string_of_list_ascii_of_string.
Qed.

(** X8.  [create_some_entries] returns true exactly when [fs_open] returned
    0; then, and only then, the file is closed and [fs_mkdir] is called,
    whose result does not change the return value. *)
Theorem create_some_entries_true_iff_opened (ops : file_ops)
    (junk : nat -> ascii) (base_path : string) :
  match create_some_entries ops junk base_path with
  | Some (ok, evs) =>
      ok = existsb is_open_ok evs /\
      ok = existsb is_close evs /\
      ok = existsb is_mkdir evs
  | None => False
  end.
Proof.
  destruct (Z.lt_ge_cases (to_size_t (wrap_int (strlen base_path))) 119)
    as [Hpass | Hreject].
  - rewrite (create_some_entries_run ops junk base_path Hpass). cbv zeta.
    set (file_path := (_ ++ "/some.dat")%string).
    set (dir_path := (_ ++ "/some")%string).
    destruct (open_reply ops file_path =? 0) eqn:Hopen; cbn [negb].
    + destruct (negb (mkdir_reply ops dir_path =? 0));
        cbn; rewrite Hopen; repeat split.
    + cbn. rewrite Hopen. repeat split.
  - rewrite (create_some_entries_rejected ops junk base_path Hreject).
    repeat split.
Qed.

Lemma create_some_entries_too_long_witness :
  119 <= strlen (long_path 119) < 2 ^ 32 /\
  create_some_entries all_ok no_junk (long_path 119) =
  Some (false,
        [LogErr "Not enough concatenation buffer to create file paths" []]).
Proof.
  assert (H : 119 <= strlen (long_path 119) < 2 ^ 32)
    by (vm_compute; split; [discriminate | reflexivity]).
  split; [exact H |].
  exact (create_some_entries_too_long all_ok no_junk (long_path 119) H).
Defined.

Lemma create_some_entries_paths_witness :
  strlen "/SD:" < 119 /\
  create_some_entries all_ok no_junk "/SD:" =
  Some (true,
        [LogInf "Creating some dir entries in %s" [Str "/SD:"];
         FsOpen "/SD:/some.dat" FS_O_CREATE 0;
         FsClose;
         FsMkdir "/SD:/some" 0]).
Proof.
  assert (H : strlen "/SD:" < 119) by reflexivity.
  split; [exact H |].
  exact (create_some_entries_paths all_ok no_junk "/SD:" H).
Defined.

(** The longest base path that is accepted fills the array to its last
    byte: 118 + 1 + 8 characters and the NUL. *)
Example longest_file_path :
  option_map
    (fun r => map (fun e => match e with
                            | FsOpen p _ _ => String.length p
                            | _ => 0%nat
                            end) (snd r))
    (create_some_entries all_ok no_junk (long_path 118)) =
  Some [0; 127; 0; 0]%nat.
Proof. reflexivity. Qed.

End CreateFacts.

Module MainFacts.
Import FsSample FsMain FsSampleFacts CreateFacts.

Lemma no_write_in_listing (evs : list event) :
  existsb is_write (map Ev evs) = false.
Proof. induction evs as [| e evs IH]; [reflexivity | exact IH]. Qed.

Lemma raw_disk_io_quiet (cfg : config) (p : platform) :
  existsb is_write (raw_disk_io cfg p) = false /\
  existsb is_dir_call (raw_disk_io cfg p) = false.
Proof.
  unfold raw_disk_io.
  destruct (negb (ioctl_reply p DISK_IOCTL_CTRL_INIT =? 0)); [now split |].
  destruct (negb (ioctl_reply p DISK_IOCTL_GET_SECTOR_COUNT =? 0)); [now split |].
  destruct (negb (ioctl_reply p DISK_IOCTL_GET_SECTOR_SIZE =? 0)); [now split |].
  destruct (negb (ioctl_reply p DISK_IOCTL_CTRL_DEINIT =? 0)); now split.
Qed.

Lemma list_and_populate_defined (cfg : config) (p : platform) :
  exists evs, list_and_populate cfg p = Some evs.
Proof.
  unfold list_and_populate.
  destruct (lsdir (card p) (DISK_MOUNT_PT cfg)) as [n evs].
  destruct (n =? 0); [| now eexists].
  destruct (CONFIG_FS_SAMPLE_CREATE_SOME_ENTRIES cfg); [| now eexists].
  destruct (create_some_entries_defined (files p) (stack_junk p)
              (DISK_MOUNT_PT cfg)) as [[ok cevs] ->].
  cbn [obind fst snd]. destruct ok; now eexists.
Qed.

Lemma list_and_populate_writes (cfg : config) (p : platform)
    (evs : list app_event) :
  list_and_populate cfg p = Some evs ->
  existsb is_write evs = true ->
  CONFIG_FS_SAMPLE_CREATE_SOME_ENTRIES cfg = true /\
  fst (lsdir (card p) (DISK_MOUNT_PT cfg)) = 0.
Proof.
  unfold list_and_populate.
  destruct (lsdir (card p) (DISK_MOUNT_PT cfg)) as [n levs]. cbn [fst].
  destruct (Z.eqb_spec n 0) as [-> | Hn].
  - destruct (CONFIG_FS_SAMPLE_CREATE_SOME_ENTRIES cfg); [now split |].
    intros [= <-] Hw. now rewrite no_write_in_listing in Hw.
  - intros [= <-] Hw. now rewrite no_write_in_listing in Hw.
Qed.

Lemma main_body_after_raw (cfg : config) (p : platform) :
  exists rest,
    option_map snd (main cfg p) =
    Some (raw_disk_io cfg p ++
          FsMount (DISK_MOUNT_PT cfg) (mount_reply p) :: rest).
Proof.
  unfold main.
  destruct (mount_reply p =? FS_RET_OK cfg).
  - destruct (negb (unmount_reply p =? FS_RET_OK cfg)).
    + eexists. cbn [option_map snd]. rewrite <- !app_assoc. reflexivity.
    + destruct (negb (remount_reply p =? FS_RET_OK cfg)).
      * eexists. cbn [option_map snd]. rewrite <- !app_assoc. reflexivity.
      * destruct (list_and_populate_defined cfg p) as [levs ->].
        eexists. cbn [obind option_map snd]. rewrite <- !app_assoc.
        reflexivity.
  - eexists. cbn [option_map snd]. rewrite <- !app_assoc. reflexivity.
Qed.

(** X9.  [main] returns only when, after a first successful mount, the
    unmount or the remount failed; it then returns that failing code, which
    is not [FS_RET_OK], and has neither listed nor written anything.  In
    every other case it ends in its idle loop, the final [fs_unmount] being
    the last thing it did.  No array access of it is out of bounds. *)
Theorem main_exit_or_idle (cfg : config) (p : platform) :
  exists r evs,
    main cfg p = Some (r, evs) /\
    match r with
    | Exit res =>
        res <> FS_RET_OK cfg /\
        mount_reply p = FS_RET_OK cfg /\
        (res = unmount_reply p \/
         (unmount_reply p = FS_RET_OK cfg /\ res = remount_reply p)) /\
        existsb is_dir_call evs = false /\
        existsb is_write evs = false
    | Idle =>
        exists before,
          evs = before ++ [FsUnmount (DISK_MOUNT_PT cfg) (last_unmount_reply p)]
    end.
Proof.
  unfold main.
  destruct (raw_disk_io_quiet cfg p) as [Hw Hd].
  destruct (Z.eqb_spec (mount_reply p) (FS_RET_OK cfg)) as [Hmount | Hmount].
  - destruct (Z.eqb_spec (unmount_reply p) (FS_RET_OK cfg)) as [Hun | Hun];
      cbn [negb].
    + destruct (Z.eqb_spec (remount_reply p) (FS_RET_OK cfg)) as [Hre | Hre];
        cbn [negb].
      * destruct (list_and_populate_defined cfg p) as [levs ->].
        cbn [obind]. do 2 eexists. split; [reflexivity |].
        now eexists.
      * do 2 eexists. split; [reflexivity |].
        repeat split; try assumption; [now right | |];
          rewrite !existsb_app; [rewrite Hd | rewrite Hw]; reflexivity.
    + do 2 eexists. split; [reflexivity |].
      repeat split; try assumption; [now left | |];
        rewrite !existsb_app; [rewrite Hd | rewrite Hw]; reflexivity.
  - do 2 eexists. split; [reflexivity |]. now eexists.
Qed.

(** X10.  [main] calls [fs_open] or [fs_mkdir] only when the sample is built
    to create entries, the mount, the unmount and the remount succeeded, and
    the first listing of the mount point returned 0. *)
Theorem main_writes_only_after_empty_listing (cfg : config) (p : platform)
    (r : main_result) (evs : list app_event) :
  main cfg p = Some (r, evs) ->
  existsb is_write evs = true ->
  CONFIG_FS_SAMPLE_CREATE_SOME_ENTRIES cfg = true /\
  mount_reply p = FS_RET_OK cfg /\
  unmount_reply p = FS_RET_OK cfg /\
  remount_reply p = FS_RET_OK cfg /\
  fst (lsdir (card p) (DISK_MOUNT_PT cfg)) = 0.
Proof.
  unfold main.
  destruct (raw_disk_io_quiet cfg p) as [Hw _].
  destruct (Z.eqb_spec (mount_reply p) (FS_RET_OK cfg)) as [Hmount | Hmount].
  - destruct (Z.eqb_spec (unmount_reply p) (FS_RET_OK cfg)) as [Hun | Hun];
      cbn [negb].
    + destruct (Z.eqb_spec (remount_reply p) (FS_RET_OK cfg)) as [Hre | Hre];
        cbn [negb].
      * destruct (list_and_populate cfg p) as [levs |] eqn:Hlist;
          cbn [obind]; [| discriminate].
        intros [= <- <-]. rewrite !existsb_app, Hw. cbn.
        rewrite orb_false_r. intros Hlw.
        destruct (list_and_populate_writes cfg p levs Hlist Hlw).
        now repeat split.
      * intros [= <- <-]. rewrite !existsb_app, Hw. discriminate.
    + intros [= <- <-]. rewrite !existsb_app, Hw. discriminate.
  - intros [= <- <-]. rewrite !existsb_app, Hw. discriminate.
Qed.

(** X11.  The raw disk i/o issues the four ioctl commands in order, each
    only after the ones before it returned 0, and stops at the first one
    that fails; whatever happened there, [main] goes on to mount. *)
Theorem raw_disk_io_stops_at_first_failure (cfg : config) (p : platform) :
  (exists n : nat,
     (n < 4)%nat /\
     ioctl_cmds (raw_disk_io cfg p) = firstn (S n) all_ioctl_cmds /\
     Forall (fun c => ioctl_reply p c = 0) (firstn n all_ioctl_cmds) /\
     ((n < 3)%nat ->
      ioctl_reply p (nth n all_ioctl_cmds DISK_IOCTL_CTRL_INIT) <> 0)) /\
  (exists rest,
     option_map snd (main cfg p) =
     Some (raw_disk_io cfg p ++
           FsMount (DISK_MOUNT_PT cfg) (mount_reply p) :: rest)).
Proof.
  split.
  - unfold raw_disk_io.
    destruct (Z.eqb_spec (ioctl_reply p DISK_IOCTL_CTRL_INIT) 0) as [H0 | H0];
      cbn [negb]; [| exists 0%nat; repeat split; [lia | constructor | auto]].
    destruct (Z.eqb_spec (ioctl_reply p DISK_IOCTL_GET_SECTOR_COUNT) 0)
      as [H1 | H1]; cbn [negb];
      [| exists 1%nat; repeat split; [lia | repeat constructor; assumption | auto]].
    destruct (Z.eqb_spec (ioctl_reply p DISK_IOCTL_GET_SECTOR_SIZE) 0)
      as [H2 | H2]; cbn [negb];
      [| exists 2%nat; repeat split; [lia | repeat constructor; assumption | auto]].
    exists 3%nat.
    destruct (negb (ioctl_reply p DISK_IOCTL_CTRL_DEINIT =? 0));
      repeat split; solve [lia | repeat constructor; assumption].
  - destruct (main_body_after_raw cfg p) as [rest Hrest]. now exists rest.
Qed.

(** Below 2^52 bytes the computed size is the number of whole mebibytes:
    the product of the two 32-bit values is taken in 64 bits, where it cannot
    wrap, and the shifted value fits the 32-bit cast. *)
Lemma memory_size_mb_small (block_count block_size : Z) :
  u32 block_count * u32 block_size < 2 ^ 52 ->
  u64 (u32 block_count * u32 block_size) = u32 block_count * u32 block_size /\
  memory_size_mb block_count block_size =
    u32 block_count * u32 block_size / 2 ^ 20.
Proof.
  intros Hsmall.
  assert (Hc : 0 <= u32 block_count < 2 ^ 32)
    by (unfold u32; apply Z.mod_pos_bound; reflexivity).
  assert (Hs : 0 <= u32 block_size < 2 ^ 32)
    by (unfold u32; apply Z.mod_pos_bound; reflexivity).
  set (bytes := u32 block_count * u32 block_size) in *.
  assert (Hbytes : 0 <= bytes) by (unfold bytes; nia).
  assert (H64 : u64 bytes = bytes).
  { unfold u64. apply Z.mod_small. split; [exact Hbytes |].
    eapply Z.lt_trans; [exact Hsmall | reflexivity]. }
  split; [exact H64 |].
  unfold memory_size_mb. fold bytes. rewrite H64.
  rewrite Z.shiftr_div_pow2 by lia.
  unfold u32 at 1. apply Z.mod_small. split.
  - apply Z.div_pos; [exact Hbytes | reflexivity].
  - apply Z.div_lt_upper_bound; [reflexivity |].
    change (2 ^ 20 * 2 ^ 32) with (2 ^ 52). exact Hsmall.
Qed.

Lemma u32_idem (z : Z) : u32 (u32 z) = u32 z.
Proof. unfold u32. apply Z.mod_mod. discriminate. Qed.

(** The size line of the raw disk i/o: printed once the three queries
    before it succeeded, and not otherwise. *)
Lemma raw_disk_io_size_line (cfg : config) (p : platform) :
  filter is_memory_size_line (raw_disk_io cfg p) =
  if (ioctl_reply p DISK_IOCTL_CTRL_INIT =? 0) &&
     (ioctl_reply p DISK_IOCTL_GET_SECTOR_COUNT =? 0) &&
     (ioctl_reply p DISK_IOCTL_GET_SECTOR_SIZE =? 0)
  then [printk "Memory Size(MB) %u\n"
          [Int (memory_size_mb (u32 (sector_count p)) (u32 (sector_size p)))]]
  else [].
Proof.
  unfold raw_disk_io.
  destruct (ioctl_reply p DISK_IOCTL_CTRL_INIT =? 0); [| reflexivity].
  destruct (ioctl_reply p DISK_IOCTL_GET_SECTOR_COUNT =? 0); [| reflexivity].
  destruct (ioctl_reply p DISK_IOCTL_GET_SECTOR_SIZE =? 0); [| reflexivity].
  destruct (ioctl_reply p DISK_IOCTL_CTRL_DEINIT =? 0); reflexivity.
Qed.

Lemma no_size_line_in_loop (dirp : list readdir_reply) :
  forall (count : Z) (out : list event),
    filter is_memory_size_line (map Ev (snd (lsdir_loop dirp count out))) =
    filter is_memory_size_line (map Ev out).
Proof.
  induction dirp as [| [res entry] dirp IH]; intros count out.
  - cbn [lsdir_loop snd]. rewrite map_app, filter_app. cbn.
    now rewrite app_nil_r.
  - cbn [lsdir_loop].
    destruct (negb (res =? 0) || name_is_empty entry).
    + cbn [snd]. rewrite map_app, filter_app. cbn. now rewrite app_nil_r.
    + rewrite IH, !map_app, !filter_app. cbn [map filter is_memory_size_line].
      unfold print_entry. destruct (type entry); cbn; now rewrite !app_nil_r.
Qed.

Lemma no_size_line_in_lsdir (fs : filesystem) (path : string) :
  filter is_memory_size_line (map Ev (snd (lsdir fs path))) = [].
Proof.
  unfold lsdir. destruct (negb (opendir_reply fs path =? 0)); [reflexivity |].
  pose proof (no_size_line_in_loop (readdir_replies fs path) 0
                ([FsOpendir path (opendir_reply fs path)] ++
                 [Printk "\nListing dir %s ...\n" [Str path]])) as Hloop.
  destruct (lsdir_loop (readdir_replies fs path) 0 _) as [[res count] out].
  cbn [snd] in *. rewrite !map_app, !filter_app, Hloop. reflexivity.
Qed.

Lemma no_size_line_in_create (ops : file_ops) (junk : nat -> ascii)
    (base_path : string) (r : bool * list app_event) :
  create_some_entries ops junk base_path = Some r ->
  filter is_memory_size_line (snd r) = [].
Proof.
  destruct (Z.lt_ge_cases (to_size_t (wrap_int (strlen base_path))) 119)
    as [Hpass | Hreject].
  - rewrite (create_some_entries_run ops junk base_path Hpass). cbv zeta.
    set (file_path := (_ ++ "/some.dat")%string).
    set (dir_path := (_ ++ "/some")%string).
    destruct (negb (open_reply ops file_path =? 0)); [now intros [= <-] |].
    destruct (negb (mkdir_reply ops dir_path =? 0)); now intros [= <-].
  - rewrite (create_some_entries_rejected ops junk base_path Hreject).
    now intros [= <-].
Qed.

Lemma no_size_line_in_listing_part (cfg : config) (p : platform)
    (evs : list app_event) :
  list_and_populate cfg p = Some evs ->
  filter is_memory_size_line evs = [].
Proof.
  unfold list_and_populate.
  pose proof (no_size_line_in_lsdir (card p) (DISK_MOUNT_PT cfg)) as Hfirst.
  destruct (lsdir (card p) (DISK_MOUNT_PT cfg)) as [n levs]. cbn [snd] in Hfirst.
  destruct (n =? 0); [| now intros [= <-]].
  destruct (CONFIG_FS_SAMPLE_CREATE_SOME_ENTRIES cfg); [| now intros [= <-]].
  destruct (create_some_entries (files p) (stack_junk p) (DISK_MOUNT_PT cfg))
    as [[ok cevs] |] eqn:Hcreate; cbn [obind fst snd]; [| discriminate].
  pose proof (no_size_line_in_create _ _ _ _ Hcreate) as Hc. cbn [snd] in Hc.
  destruct ok; intros [= <-];
    rewrite !filter_app, ?no_size_line_in_lsdir, Hfirst, Hc; reflexivity.
Qed.



Lemma main_writes_only_after_empty_listing_witness :
  exists evs,
    main (fat_config 0 true) good_platform = Some (Idle, evs) /\
    existsb is_write evs = true /\
    fst (lsdir empty_card "/SD:") = 0.
Proof.
  pose (evs := match main (fat_config 0 true) good_platform with
               | Some (_, e) => e
               | None => []
               end).
  assert (H1 : main (fat_config 0 true) good_platform = Some (Idle, evs))
    by reflexivity.
  assert (H2 : existsb is_write evs = true) by reflexivity.
  exists evs. split; [exact H1 |]. split; [exact H2 |].
  exact (proj2 (proj2 (proj2 (proj2
    (main_writes_only_after_empty_listing
       (fat_config 0 true) good_platform Idle evs H1 H2))))).
Defined.

(** The sample on a good, empty card: it mounts, lists nothing, creates the
    two entries, lists them and unmounts. *)
Example main_on_good_platform :
  option_map (fun r => (fst r, filter (fun e => is_write e || is_dir_call e) (snd r)))
    (main (fat_config 0 true) good_platform) =
  Some (Idle,
        [Ev (FsOpendir "/SD:" 0);
         Ev (FsReaddir 0 end_of_dir);
         Ev FsClosedir;
         FsOpen "/SD:/some.dat" FS_O_CREATE 0;
         FsMkdir "/SD:/some" 0;
         Ev (FsOpendir "/SD:" 0);
         Ev (FsReaddir 0 (mk_dirent FS_DIR_ENTRY_FILE "some.dat" 0));
         Ev (FsReaddir 0 (mk_dirent FS_DIR_ENTRY_DIR "some" 0));
         Ev (FsReaddir 0 end_of_dir);
         Ev FsClosedir]).
Proof. reflexivity. Qed.

End MainFacts.

Module PowerCycle.
Import Power PowerFacts.

Section Cycle.
Context {hdr : soc_headers}.
Hypothesis case_labels_distinct : PM_STATE_STANDBY <> PM_STATE_SOFT_OFF.

(** X13.  A full cycle, [pm_state_set] then [pm_state_exit_post_ops] for the
    same state: in soft-off the exit hook never runs and the calls are the
    two of the entry; in standby the cycle returns after the three calls of
    the exit hook; in any other state it returns after two log lines. *)
Theorem enter_then_exit (state sub_in sub_out : Z) (s : soc) :
  let r := bind (pm_state_set state sub_in)
                (fun _ => pm_state_exit_post_ops state sub_out) s in
  let line := Log LOG_LEVEL_DBG "Unsupported power state %u" state in
  (state = PM_STATE_SOFT_OFF ->
   fst r = NoReturn /\
   calls (snd r) =
     calls s ++ [EspSleepPdConfig ESP_PD_DOMAIN_RTC_PERIPH ESP_PD_OPTION_ON;
                 EspDeepSleepStart]) /\
  (state = PM_STATE_STANDBY ->
   fst r = Returned tt /\
   calls (snd r) = calls s ++ [IrqUnlock MSTATUS_IEN; Wfi; EspLightSleepStart]) /\
  (state <> PM_STATE_SOFT_OFF -> state <> PM_STATE_STANDBY ->
   fst r = Returned tt /\
   calls (snd r) = calls s ++ [line; line]).
Proof.
  cbv zeta. split; [| split].
  - intros ->.
    rewrite (bind_noreturn _ _ _ _ (pm_state_set_soft_off_run sub_in s)).
    now split.
  - intros ->.
    assert (Henter : pm_state_set PM_STATE_STANDBY sub_in s = (Returned tt, s)).
    { unfold pm_state_set.
      now rewrite (standby_not_soft_off case_labels_distinct), Z.eqb_refl. }
    rewrite (bind_returned _ _ _ _ _ Henter).
    rewrite (pm_state_exit_post_ops_standby_run case_labels_distinct).
    now split.
  - intros Hoff Hsb.
    apply Z.eqb_neq in Hoff. apply Z.eqb_neq in Hsb.
    assert (Henter : pm_state_set state sub_in s =
              (Returned tt,
               record (Log LOG_LEVEL_DBG "Unsupported power state %u" state) s)).
    { unfold pm_state_set. now rewrite Hoff, Hsb. }
    rewrite (bind_returned _ _ _ _ _ Henter).
    unfold pm_state_exit_post_ops. rewrite Hoff, Hsb, default_branch_run.
    cbn. rewrite <- app_assoc. now split.
Qed.

End Cycle.

Lemma enter_then_exit_witness :
  @PM_STATE_STANDBY esp32c3_headers <> @PM_STATE_SOFT_OFF esp32c3_headers /\
  calls (snd (bind (@pm_state_set esp32c3_headers 6 0)
                   (fun _ => @pm_state_exit_post_ops esp32c3_headers 6 0) soc0)) =
    [EspSleepPdConfig 0 1; EspDeepSleepStart].
Proof.
  assert (H : @PM_STATE_STANDBY esp32c3_headers <>
              @PM_STATE_SOFT_OFF esp32c3_headers) by (cbn; lia).
  split; [exact H |].
  exact (proj2 (proj1
    (@enter_then_exit esp32c3_headers H 6 0 0 soc0) eq_refl)).
Defined.

End PowerCycle.
